(** * Isotropic slicer for TIFF z-stacks: a shallow embedding

    This development embeds the core of [Python/isotropic_3D_slicer.py]
    (axis parsing, canonicalisation, Z resampling and the orthogonal slice
    writer), together with its persistent preferences and the axis
    handling of its command line, and proves the properties of its
    specification and further properties of the code.

    Modelling conventions.
    - A numpy array is a shape together with an element accessor on
      multi-indices ([ndarray]); elements are integers.
    - Python exceptions are values of [error]; a function that may raise
      returns a [result].
    - A finite Python [float] is the rational number it denotes.  The
      float arithmetic of the code itself ([float(z_aspect)], the product
      [Z * z_aspect], the quotient [newZ / Z]) is IEEE binary64: each result
      is rounded to the nearest representable number, ties to the even
      significand, and a result beyond the range is an infinity, which
      [round] refuses with [OverflowError].  The literals [inf] and [nan]
      are not arguments of the model.
    - numpy's [linspace] and [rint] are taken by their specification over
      the real numbers (evenly spaced points, nearest integer with ties to
      even); numpy evaluates them in binary64, so a sample position within
      rounding error of a half-integer may select the neighbouring plane.
    - A [str] is the sequence of its code points, which are taken to be
      below 256.
    - The writer runs in a small state-and-error monad whose state is the
      progress counter and the trace of calls made to the TIFF sink and to
      the progress callback.
    - A preferences file is represented by the JSON document it holds, so
      that [json.loads] of what [json.dumps] wrote is that document; writing
      a file is taken to succeed. *)

From Stdlib Require Import List ZArith QArith Qround Qabs Qpower Qreduction.
From Stdlib Require Import Lia Bool Ascii String.
From Stdlib Require Import DecimalString Permutation.
From Stdlib Require DecimalNat.
From Stdlib Require Import Lqa.
Import ListNotations.

Local Open Scope string_scope.
Local Open Scope list_scope.
Local Open Scope Z_scope.

(** ** Exceptions and results *)

(** The exceptions the core raises.  The source raises [ValueError] with a
    distinct message at each site; the constructors name the sites as the
    specification's taxonomy does. *)
Inductive error : Type :=
| InvalidAxisSpec    (* parse_axis: "Invalid axis spec", "Axis .. out of bounds", "Invalid axis type" *)
| DimensionMismatch  (* "No channels axis but input ndim != 3", "Channels provided but input ndim (expected 4)" *)
| AxisConflict       (* "z_axis and c_axis refer to the same dimension." *)
| ChannelBetweenXY   (* "Channel axis must be either before both XY or after both XY" *)
| AxisError          (* transpose: axes don't match array / out of bounds / repeated axis *)
| IndexError         (* index out of bounds, or shape[0] of a 0-d array *)
| EmptyMaxError      (* np.max of a zero-size array *)
| UnpackError        (* tuple unpacking of a shape of the wrong length *)
| TypeError          (* an operation applied to None *)
| OverflowError.     (* [float] of a number beyond the range, [round] of an infinity *)

Inductive result (A : Type) : Type :=
| Ok (a : A)
| Err (e : error).
Arguments Ok {A} a.
Arguments Err {A} e.

Definition rbind {A B} (r : result A) (k : A -> result B) : result B :=
  match r with
  | Ok a => k a
  | Err e => Err e
  end.

Notation "'let*' x ':=' r 'in' k" := (rbind r (fun x => k))
  (at level 10, x pattern, r at level 100, k at level 200).

(** ** Strings: the fragment of [str] the code uses *)

(** [str.isspace] on one character: the ASCII blanks and separators, the
    next-line control U+0085 and the no-break space U+00A0. *)
Definition is_space (c : ascii) : bool :=
  let n := nat_of_ascii c in
  ((9 <=? n) && (n <=? 13) || (28 <=? n) && (n <=? 32) ||
   (n =? 133) || (n =? 160))%nat.

Fixpoint lstrip (s : string) : string :=
  match s with
  | String c r => if is_space c then lstrip r else s
  | EmptyString => EmptyString
  end.

(** Removes trailing white space: a character is kept when something
    non-blank remains at or after it. *)
Fixpoint rstrip (s : string) : string :=
  match s with
  | EmptyString => EmptyString
  | String c r =>
      match rstrip r with
      | EmptyString => if is_space c then EmptyString else String c EmptyString
      | r' => String c r'
      end
  end.

Definition strip (s : string) : string := rstrip (lstrip s).

(** [str.lower] on one character: the capitals [A-Z] and the accented
    capitals U+00C0 to U+00DE, the multiplication sign U+00D7 apart. *)
Definition lower_char (c : ascii) : ascii :=
  let n := nat_of_ascii c in
  if ((65 <=? n) && (n <=? 90) ||
      (192 <=? n) && (n <=? 222) && negb (n =? 215))%nat
  then ascii_of_nat (n + 32) else c.

Fixpoint lower (s : string) : string :=
  match s with
  | EmptyString => EmptyString
  | String c r => String (lower_char c) (lower r)
  end.

Definition digit_of (c : ascii) : option Z :=
  let n := nat_of_ascii c in
  if ((48 <=? n) && (n <=? 57))%nat then Some (Z.of_nat (n - 48)) else None.

(** Digits with single underscores between them, as [int] accepts. *)
Fixpoint parse_digits (s : string) (acc : Z) (after_digit : bool) : option Z :=
  match s with
  | EmptyString => if after_digit then Some acc else None
  | String c r =>
      match digit_of c with
      | Some d => parse_digits r (10 * acc + d) true
      | None =>
          if (Ascii.eqb c "_" && after_digit)%bool
          then parse_digits r acc false
          else None
      end
  end.

(** [int(s)] for an already stripped string: [None] stands for the
    [ValueError] of an unparsable literal.  Below U+0100 the decimal
    digits are the ASCII ones.  The interpreter's limit on the length of
    an integer literal (4300 digits unless configured otherwise) is not
    part of the definition: statements about arbitrary tokens bound their
    length. *)
Definition py_int (s : string) : option Z :=
  match s with
  | String "+" r => parse_digits r 0 false
  | String "-" r => option_map Z.opp (parse_digits r 0 false)
  | _ => parse_digits s 0 false
  end.

Definition str_in (s : string) (l : list string) : bool :=
  existsb (String.eqb s) l.

(** [s.endswith(suf)] and [s[:-len(suf)]]. *)
Definition endswith (s suf : string) : bool :=
  (String.length suf <=? String.length s)%nat &&
  String.eqb (substring (String.length s - String.length suf) (String.length suf) s) suf.

Definition drop_last (n : nat) (s : string) : string :=
  substring 0 (String.length s - n) s.

(** [f"{n:04d}"]. *)
Fixpoint zeros (n : nat) : string :=
  match n with
  | O => EmptyString
  | S k => String "0" (zeros k)
  end.

Definition str_of_nat (n : nat) : string := NilZero.string_of_uint (Nat.to_uint n).

Definition fmt04d (n : nat) : string :=
  let s := str_of_nat n in
  (zeros (4 - String.length s) ++ s)%string.

(** ** Axis parsing *)

(** The dynamically typed axis argument: a [str], an [int], [None], or a
    value of any other type. *)
Inductive axis_arg : Type :=
| AStr (s : string)
| AInt (i : Z)
| ANone
| AOther.

Definition in_bounds (i : Z) (ndim : nat) : bool :=
  (- Z.of_nat ndim <=? i) && (i <? Z.of_nat ndim).

(** [parse_axis(ax_str, ndim, allow_none)].  [Ok None] is Python's [None]. *)
Definition parse_axis (ax_str : axis_arg) (ndim : nat) (allow_none : bool)
  : result (option Z) :=
  match ax_str with
  | AStr a =>
      let s := lower (strip a) in
      if allow_none && str_in s ["none"; "no"; "disabled"] then Ok None
      else if str_in s ["first"; "0"] then Ok (Some 0)
      else if str_in s ["last"; "-1"] then Ok (Some (Z.of_nat ndim - 1))
      else
        match py_int s with
        | Some i => if in_bounds i ndim then Ok (Some i) else Err InvalidAxisSpec
        | None => Err InvalidAxisSpec
        end
  | ANone => if allow_none then Ok None else Err InvalidAxisSpec
  | AInt i => if in_bounds i ndim then Ok (Some i) else Err InvalidAxisSpec
  | AOther => Err InvalidAxisSpec
  end.

(** ** Arrays *)

(** A numpy array: its [shape] and the element at each multi-index.  The
    accessor is only meaningful on indices within the shape. *)
Record ndarray : Type := mk_ndarray {
  shape : list nat;
  item : list nat -> Z
}.

Definition ndim (a : ndarray) : nat := List.length (shape a).

Definition prod (sh : list nat) : nat := fold_right Nat.mul 1%nat sh.

(** [a.size]: the total element count. *)
Definition size (a : ndarray) : nat := prod (shape a).

(** All multi-indices of a shape, in row-major order. *)
Fixpoint indices (sh : list nat) : list (list nat) :=
  match sh with
  | [] => [[]]
  | n :: sh' => flat_map (fun i => map (cons i) (indices sh')) (seq 0 n)
  end.

(** The elements of an array in row-major order ([a.ravel()]). *)
Definition elements (a : ndarray) : list Z := map (item a) (indices (shape a)).

(** [np.arange(prod(sh)).reshape(sh)]-style construction from flat data. *)
Fixpoint offset (sh ix : list nat) : nat :=
  match sh, ix with
  | n :: sh', i :: ix' => (i * prod sh' + offset sh' ix')%nat
  | _, _ => 0%nat
  end.

Definition of_flat (sh : list nat) (data : list Z) : ndarray :=
  {| shape := sh; item := fun ix => nth (offset sh ix) data 0 |}.

Fixpoint mapM {A B} (f : A -> result B) (l : list A) : result (list B) :=
  match l with
  | [] => Ok []
  | x :: r => let* y := f x in let* ys := mapM f r in Ok (y :: ys)
  end.

(** numpy's [normalize_axis_index]. *)
Definition normalize_axis (n : nat) (ax : Z) : result nat :=
  if in_bounds ax n
  then Ok (Z.to_nat (if ax <? 0 then ax + Z.of_nat n else ax))
  else Err AxisError.

Fixpoint nodupb (l : list nat) : bool :=
  match l with
  | [] => true
  | x :: r => negb (existsb (Nat.eqb x) r) && nodupb r
  end.

(** Position of the first occurrence of [j] in [p]. *)
Fixpoint find_pos (j : nat) (p : list nat) : nat :=
  match p with
  | [] => 0%nat
  | x :: r => if Nat.eqb x j then 0%nat else S (find_pos j r)
  end.

(** [a.transpose(perm)]: output axis [k] is input axis [perm[k]]. *)
Definition transpose (a : ndarray) (perm : list Z) : result ndarray :=
  if negb (List.length perm =? ndim a)%nat then Err AxisError
  else
    let* p := mapM (normalize_axis (ndim a)) perm in
    if negb (nodupb p) then Err AxisError
    else Ok {| shape := map (fun k => nth k (shape a) 0%nat) p;
               item := fun ix =>
                 item a (map (fun j => nth (find_pos j p) ix 0%nat) (seq 0 (ndim a))) |}.

(** Basic indexing with one integer at axis [k] and full slices elsewhere,
    e.g. [a[:, i, :]] for [k = 1]. *)
Definition fix_axis (k i : nat) (a : ndarray) : ndarray :=
  {| shape := firstn k (shape a) ++ skipn (S k) (shape a);
     item := fun ix => item a (firstn k ix ++ i :: skipn k ix) |}.

(** [np.swapaxes(a, 0, 1)]. *)
Definition swapaxes01 (a : ndarray) : ndarray :=
  {| shape := match shape a with
              | m :: n :: r => n :: m :: r
              | sh => sh
              end;
     item := fun ix => match ix with
                       | i :: j :: r => item a (j :: i :: r)
                       | _ => item a ix
                       end |}.

(** [a[idx, ...]] for an integer index array [idx] (negative entries count
    from the end; an entry outside [-Z, Z) raises [IndexError]). *)
Definition take0 (a : ndarray) (idx : list Z) : result ndarray :=
  match shape a with
  | [] => Err IndexError
  | Zs :: rest =>
      if forallb (fun i => in_bounds i Zs) idx
      then Ok {| shape := List.length idx :: rest;
                 item := fun ix =>
                   match ix with
                   | k :: r =>
                       let i := nth k idx 0 in
                       item a (Z.to_nat (if i <? 0 then i + Z.of_nat Zs else i) :: r)
                   | [] => 0
                   end |}
      else Err IndexError
  end.

(** [np.max(a)]. *)
Definition np_max (a : ndarray) : result Z :=
  match elements a with
  | [] => Err EmptyMaxError
  | x :: r => Ok (fold_left Z.max r x)
  end.

(** ** Canonicalisation *)

(** [cpos]: ['before'] or ['after']; Python's [None] is [None]. *)
Inductive cpos_t : Type := Before | After.

Definition range (n : nat) : list Z := map Z.of_nat (seq 0 n).

Definition wrap_axis (ax : Z) (nd : nat) : Z :=
  if 0 <=? ax then ax else ax + Z.of_nat nd.

(** [l[i]] on a Python list. *)
Definition list_get (l : list Z) (i : nat) : result Z :=
  match nth_error l i with
  | Some x => Ok x
  | None => Err IndexError
  end.

Definition list_min (l : list Z) : Z :=
  match l with
  | [] => 0
  | x :: r => fold_left Z.min r x
  end.

Definition list_max (l : list Z) : Z :=
  match l with
  | [] => 0
  | x :: r => fold_left Z.max r x
  end.

(** The permutation [canonicalize_preserve_c_side] hands to [transpose],
    with the channel side. *)
Definition canonical_perm (nd : nat) (z_axis : Z) (c_axis : option Z)
  : result (list Z * option cpos_t) :=
  let za := wrap_axis z_axis nd in
  match c_axis with
  | None =>
      if negb (nd =? 3)%nat then Err DimensionMismatch
      else
        let others := filter (fun i => negb (i =? za)) (range nd) in
        Ok (za :: others, None)
  | Some c =>
      let ca := wrap_axis c nd in
      if negb (nd =? 4)%nat then Err DimensionMismatch
      else if za =? ca then Err AxisConflict
      else
        let others := filter (fun i => negb ((i =? za) || (i =? ca))) (range nd) in
        let* y_ax := list_get others 0 in
        let* x_ax := list_get others 1 in
        if ca <? list_min others then Ok ([za; ca; y_ax; x_ax], Some Before)
        else if ca >? list_max others then Ok ([za; y_ax; x_ax; ca], Some After)
        else Err ChannelBetweenXY
  end.

Definition canonicalize_preserve_c_side (arr : ndarray) (z_axis : Z) (c_axis : option Z)
  : result (ndarray * option cpos_t) :=
  let* (perm, cpos) := canonical_perm (ndim arr) z_axis c_axis in
  let* arr_can := transpose arr perm in
  Ok (arr_can, cpos).

(** ** Resampling along Z *)

(** Python's [round] and numpy's [rint]: to the nearest integer, ties to
    the even one. *)
Definition round_half_even (q : Q) : Z :=
  let f := Qfloor q in
  match Qcompare (Qminus q (inject_Z f)) (1 # 2) with
  | Lt => f
  | Gt => (f + 1)%Z
  | Eq => if Z.even f then f else (f + 1)%Z
  end.

(** *** Floats *)

(** [floor(log2 |q|)] of a number that is not zero. *)
Definition ilog2 (q : Q) : Z :=
  let a := Qabs q in
  if Qle_bool 1 a then Z.log2 (Qfloor a) else - Z.log2_up (Qceiling (Qinv a)).

(** The exponent of the unit in the last place of the binary64 numbers
    around [x]: 53 significant bits, and no unit below [2^-1074]. *)
Definition ulp_exp (x : Q) : Z := Z.max (-1074) (ilog2 x - 52).

(** The multiple of that unit nearest to [x], ties to the even multiple. *)
Definition nearest64 (x : Q) : Q :=
  let e := ulp_exp x in
  Qmult (inject_Z (round_half_even (Qdiv x (Qpower 2 e)))) (Qpower 2 e).

(** The binary64 value of a real number: the nearest one, unless it
    reaches [2^1024], which is an infinity ([None]). *)
Definition float64 (x : Q) : option Q :=
  if Qeq_bool x 0 then Some 0%Q
  else
    let r := Qred (nearest64 x) in
    if Qle_bool (Qpower 2 1024) (Qabs r) then None else Some r.

(** [float(x)] for a number [x]: a float is returned as it is, any other
    number is rounded, and one beyond the range is refused. *)
Definition py_float (x : Q) : result Q :=
  match float64 x with
  | Some f => Ok f
  | None => Err OverflowError
  end.

(** [n * x] for an [int] and a float: the [int] is converted first. *)
Definition int_times_float (n : Z) (x : Q) : result (option Q) :=
  let* f := py_float (inject_Z n) in
  Ok (float64 (Qmult f x)).

(** [round(x)] of a float. *)
Definition py_round (x : option Q) : result Z :=
  match x with
  | Some q => Ok (round_half_even q)
  | None => Err OverflowError
  end.

(** [n / d] for two [int]s, [d] not zero: the quotient, correctly rounded. *)
Definition int_truediv (n d : Z) : result Q :=
  py_float (Qdiv (inject_Z n) (inject_Z d)).

(** [np.linspace(0, stop, num)]. *)
Definition linspace (stop : Z) (num : nat) : list Q :=
  match num with
  | O => []
  | S O => [0%Q]
  | S d => map (fun i => Qmult (inject_Z (Z.of_nat i)) (Qdiv (inject_Z stop) (inject_Z (Z.of_nat d))))
               (seq 0 num)
  end.

Definition clip (lo hi i : Z) : Z := Z.min (Z.max i lo) hi.

(** [round(Z * z_aspect)] for the float [z_aspect]. *)
Definition rounded_product (Zs : nat) (z_aspect : Q) : result Z :=
  let* p := int_times_float (Z.of_nat Zs) z_aspect in
  py_round p.

(** [newZ = max(1, int(round(Z * z_aspect)))]. *)
Definition new_z (Zs : nat) (z_aspect : Q) : result Z :=
  let* r := rounded_product Zs z_aspect in
  Ok (Z.max 1 r).

(** The nearest-neighbour path: source plane indices, clipped, then gathered. *)
Definition nearest_z (arr_can : ndarray) (Zs : nat) (newZ : Z) : result ndarray :=
  let src_idx := map round_half_even (linspace (Z.of_nat Zs - 1) (Z.to_nat newZ)) in
  let src_idx := map (clip 0 (Z.of_nat Zs - 1)) src_idx in
  take0 arr_can src_idx.

(** The optional linear engine ([scipy.ndimage.zoom] with [order=1],
    [prefilter=False]) is a parameter: it receives the array and the zoom
    factors, and answers [None] when the import or the call raises. *)
Definition zoom_t : Type := ndarray -> list Q -> option ndarray.

Definition resample_z_isotropic (zoom : zoom_t)
    (arr_can : ndarray) (z_aspect : Q) (mode : string) : result ndarray :=
  let* z_aspect := py_float z_aspect in
  match shape arr_can with
  | [] => Err IndexError
  | Zs :: _ =>
      let* newZ := new_z Zs z_aspect in
      if newZ =? Z.of_nat Zs then Ok arr_can
      else
        (* an exception inside the [try] ([ZeroDivisionError] of [newZ / Z]
           when Z = 0, or one raised by the engine) falls back to nearest *)
        let linear :=
          if String.eqb mode "image" then
            if (Zs =? 0)%nat then None
            else
              match int_truediv newZ (Z.of_nat Zs) with
              | Ok f => zoom arr_can (f :: repeat 1%Q (ndim arr_can - 1))
              | Err _ => None
              end
          else None in
        match linear with
        | Some out => Ok out
        | None => nearest_z arr_can Zs newZ
        end
  end.

(** ** The slice writer *)

(** A [pathlib.Path] as its list of components; [p / name] for a name
    without separators (joining the empty name leaves [p] unchanged). *)
Definition path : Type := list string.

Definition path_div (p : path) (name : string) : path :=
  if String.eqb name "" then p else p ++ [name].

(** What the writer does to the outside world, in order. *)
Inductive event : Type :=
| Mkdir (p : path)
  (* [p.mkdir(parents=True, exist_ok=True)] *)
| Imwrite (p : path) (tile : ndarray) (planarconfig : option string) (axes : string)
  (* [imwrite(p, tile, compression="deflate", planarconfig=.., metadata={"axes": ..})] *)
| ProgressCb (done total : nat) (note : string).
  (* [progress_cb(done, total, note)] *)

Record wstate : Type := mk_wstate {
  done : nat;
  trace : list event
}.

(** Computations of the writer: the state survives an exception, as the
    files already written do. *)
Definition W (A : Type) : Type := wstate -> wstate * result A.

Definition wret {A} (a : A) : W A := fun s => (s, Ok a).

Definition wbind {A B} (m : W A) (k : A -> W B) : W B :=
  fun s => match m s with
           | (s', Ok a) => k a s'
           | (s', Err e) => (s', Err e)
           end.

Definition wraise {A} (e : error) : W A := fun s => (s, Err e).

Definition wlift {A} (r : result A) : W A := fun s => (s, r).

Definition emit (e : event) : W unit :=
  fun s => ({| done := done s; trace := trace s ++ [e] |}, Ok tt).

Notation "m >> k" := (wbind m (fun _ => k)) (at level 61, right associativity).

(** [for i in range(n): body(i)]. *)
Fixpoint wfor (l : list nat) (body : nat -> W unit) : W unit :=
  match l with
  | [] => wret tt
  | i :: r => body i >> wfor r body
  end.

(** The input: the stem of the TIFF path ([None] for an in-memory
    [io.BytesIO]) and the array [imread] decodes from it. *)
Record tif_input : Type := mk_tif {
  path_stem : option string;
  pixels : ndarray
}.

Record summary : Type := mk_summary {
  sum_Z : nat; sum_Y : nat; sum_X : nat; sum_C : option nat;
  sum_out_dir : path;
  sum_cpos : option string;   (* [None] is Python's [None] *)
  sum_mode : string
}.

Definition pc_for (before : bool) : string :=
  if before then "separate" else "contig".

(** [report(note)]: the counter always advances; the callback is called
    when one was given, and an exception it raises is swallowed. *)
Definition report (progress_cb : bool) (total : nat) (note : string) : W unit :=
  fun s =>
    let d := S (done s) in
    ({| done := d;
        trace := if progress_cb then trace s ++ [ProgressCb d total note] else trace s |},
     Ok tt).

(** [if not (skip_empty and np.max(tile) == 0): imwrite(...)]. *)
Definition write_tile (skip_empty : bool) (p : path) (tile : ndarray)
    (planarconfig : option string) (axes : string) : W unit :=
  if skip_empty then
    wbind (wlift (np_max tile)) (fun m =>
      if m =? 0 then wret tt else emit (Imwrite p tile planarconfig axes))
  else emit (Imwrite p tile planarconfig axes).

Definition tile_name (stem dir : string) (i : nat) : string :=
  (stem ++ "_" ++ dir ++ "_" ++ fmt04d i ++ ".tif")%string.

Definition note_of (dir : string) (i n : nat) : string :=
  (dir ++ " " ++ str_of_nat (i + 1) ++ "/" ++ str_of_nat n)%string.

Section Writer.
Variables (arr_iso : ndarray) (cpos : option cpos_t) (C : option nat).
Variables (stem : string) (out_base : path) (skip_empty progress_cb : bool).
Variables (Zd Yd Xd : nat).

Definition target (dir : string) (i : nat) : path :=
  path_div (path_div out_base dir) (tile_name stem dir i).

(** The tile of each direction with its planar configuration and axes tag. *)
Definition xy_tile (z : nat) : ndarray * option string * string :=
  match C, cpos with
  | None, _ => (fix_axis 0 z arr_iso, None, "YX")
  | Some _, Some Before => (fix_axis 0 z arr_iso, Some (pc_for true), "CYX")
  | Some _, _ => (fix_axis 0 z arr_iso, Some (pc_for false), "YXC")
  end.

Definition zx_tile (y : nat) : ndarray * option string * string :=
  match C, cpos with
  | None, _ => (fix_axis 1 y arr_iso, None, "ZX")
  | Some _, Some Before => (swapaxes01 (fix_axis 2 y arr_iso), Some (pc_for true), "CZX")
  | Some _, _ => (fix_axis 1 y arr_iso, Some (pc_for false), "ZXC")
  end.

Definition zy_tile (x : nat) : ndarray * option string * string :=
  match C, cpos with
  | None, _ => (fix_axis 2 x arr_iso, None, "ZY")
  | Some _, Some Before => (swapaxes01 (fix_axis 3 x arr_iso), Some (pc_for true), "CZY")
  | Some _, _ => (fix_axis 2 x arr_iso, Some (pc_for false), "ZYC")
  end.

(** One iteration of a loop: the tile is written or skipped, then reported. *)
Definition step (dir : string) (tile_of : nat -> ndarray * option string * string)
    (n i : nat) : W unit :=
  let '(tile, pc, axes) := tile_of i in
  write_tile skip_empty (target dir i) tile pc axes >>
  report progress_cb (Zd + Yd + Xd) (note_of dir i n).

Definition write_slices : W unit :=
  wfor (seq 0 Zd) (step "xy" xy_tile Zd) >>
  wfor (seq 0 Yd) (step "zx" zx_tile Yd) >>
  wfor (seq 0 Xd) (step "zy" zy_tile Xd).

(** The [imwrite] call of tile [i] of a direction. *)
Definition imwrite_of (dir : string)
    (tile_of : nat -> ndarray * option string * string) (i : nat) : event :=
  let '(tile, pc, axes) := tile_of i in
  Imwrite (target dir i) tile pc axes.

(** The skip-empty policy: the tile's maximum is zero. *)
Definition skipped (tile_of : nat -> ndarray * option string * string) (i : nat) : bool :=
  skip_empty &&
  match np_max (fst (fst (tile_of i))) with
  | Ok m => m =? 0
  | Err _ => false
  end.

(** What a run of a loop over [l] does when no exception is raised,
    [d] tiles having been reported before. *)
Fixpoint loop_events (dir : string)
    (tile_of : nat -> ndarray * option string * string)
    (n d : nat) (l : list nat) : list event :=
  match l with
  | [] => []
  | i :: r =>
      (if skipped tile_of i then [] else [imwrite_of dir tile_of i]) ++
      (if progress_cb
       then [ProgressCb (S d) (Zd + Yd + Xd) (note_of dir i n)] else []) ++
      loop_events dir tile_of n (S d) r
  end.
End Writer.

(** [Z, Y, X, C] from the resampled shape. *)
Definition unpack_shape (arr_iso : ndarray) (cpos : option cpos_t)
  : result (nat * nat * nat * option nat) :=
  match shape arr_iso, cpos with
  | [z; y; x], _ => Ok (z, y, x, None)
  | [z; c; y; x], Some Before => Ok (z, y, x, Some c)
  | [z; y; x; c], _ => Ok (z, y, x, Some c)
  | _, _ => Err UnpackError
  end.

Definition cp_mask_suffix : string := "_cp_masks".

(** The stem used for the output directory. *)
Definition image_stem (mode stem : string) : string :=
  if String.eqb mode "labels" then
    if endswith stem cp_mask_suffix
    then drop_last (String.length cp_mask_suffix) stem
    else stem
  else stem.

Definition stem_of (tif : tif_input) : string :=
  match path_stem tif with
  | Some s => s
  | None => "stack"
  end.

(** The part of [save_isotropic_slices] before any output: axes, canonical
    layout, resampling and the dimensions. *)
Definition prepare (zoom : zoom_t) (tif : tif_input)
    (z_aspect : Q) (z_axis c_axis : axis_arg) (mode : string)
  : result (ndarray * option cpos_t * (nat * nat * nat * option nat)) :=
  let arr := pixels tif in
  let* za := parse_axis z_axis (ndim arr) false in
  let* ca := parse_axis c_axis (ndim arr) true in
  let* za := match za with Some z => Ok z | None => Err TypeError end in
  let* (arr_can, cpos) := canonicalize_preserve_c_side arr za ca in
  let* arr_iso := resample_z_isotropic zoom arr_can z_aspect mode in
  let* dims := unpack_shape arr_iso cpos in
  Ok (arr_iso, cpos, dims).

Definition save_isotropic_slices (zoom : zoom_t) (tif : tif_input) (out_dir : path)
    (z_aspect : Q) (z_axis c_axis : axis_arg) (mode : string)
    (skip_empty progress_cb : bool) : W summary :=
  wbind (wlift (prepare zoom tif z_aspect z_axis c_axis mode))
    (fun '(arr_iso, cpos, (Zd, Yd, Xd, C)) =>
  let stem := stem_of tif in
  let out_base := path_div out_dir (image_stem mode stem) in
  emit (Mkdir (path_div out_base "xy")) >>
  emit (Mkdir (path_div out_base "zx")) >>
  emit (Mkdir (path_div out_base "zy")) >>
  write_slices arr_iso cpos C stem out_base skip_empty progress_cb Zd Yd Xd >>
  wret {| sum_Z := Zd; sum_Y := Yd; sum_X := Xd; sum_C := C;
          sum_out_dir := out_base;
          sum_cpos := match C, cpos with
                      | None, _ => Some "none"
                      | _, Some Before => Some "before"
                      | _, Some After => Some "after"
                      | _, None => None
                      end;
          sum_mode := mode |}).

Definition run {A} (m : W A) : wstate * result A := m {| done := 0; trace := [] |}.

(** No exception in the skip test of tile [i]: its maximum exists. *)
Definition max_defined (skip_empty : bool)
    (tile_of : nat -> ndarray * option string * string) (i : nat) : Prop :=
  skip_empty = true -> exists m, np_max (fst (fst (tile_of i))) = Ok m.

(** ** Reading a trace *)

Definition is_imwrite (e : event) : bool :=
  match e with
  | Imwrite _ _ _ _ => true
  | _ => false
  end.

(** The tiles handed to the sink, in order. *)
Definition writes (tr : list event) : list event := filter is_imwrite tr.

(** The [(done, total)] arguments of the progress calls, in order. *)
Definition progress_calls (tr : list event) : list (nat * nat) :=
  flat_map (fun e => match e with
                     | ProgressCb d t _ => [(d, t)]
                     | _ => []
                     end) tr.

(** An event of an export of [stem] below the directory [out_base]: the
    three directories are created there, and every tile goes to
    [out_base/<dir>/<stem>_<dir>_<index>.tif]. *)
Definition event_under (out_base : path) (stem : string) (e : event) : Prop :=
  match e with
  | Mkdir p => exists dir, p = path_div out_base dir
  | Imwrite p _ _ _ =>
      exists dir i,
        p = path_div (path_div out_base dir)
              (stem ++ "_" ++ dir ++ "_" ++ fmt04d i ++ ".tif")%string
  | ProgressCb _ _ _ => True
  end.

(** A computation that only adds events satisfying [P] to the trace,
    whether or not it raises. *)
Definition adds_only {A} (P : event -> Prop) (m : W A) : Prop :=
  forall s, exists evs, trace (fst (m s)) = trace s ++ evs /\ Forall P evs.

(** Every plane of [out] is a plane of [arr]. *)
Definition planes_from (out arr : ndarray) : Prop :=
  forall k, (k < hd 0 (shape out))%nat ->
    exists j, (j < hd 0 (shape arr))%nat /\
              forall r, item out (k :: r) = item arr (j :: r).

(** Positions of the Y axis and of the channel axis in a canonical layout:
    [(Z, Y, X)], [(Z, C, Y, X)] or [(Z, Y, X, C)]; the X axis follows Y. *)
Definition y_pos (cpos : option cpos_t) : nat :=
  match cpos with
  | Some Before => 2
  | _ => 1
  end.

Definition c_pos (cpos : cpos_t) : nat :=
  match cpos with
  | Before => 1
  | After => 3
  end.

(** [k] is the dimension the (possibly negative) axis [ax] of an [n]-d
    array denotes. *)
Definition axis_of (n : nat) (ax : Z) (k : nat) : Prop :=
  (k < n)%nat /\ Z.of_nat k = ax mod Z.of_nat n /\
  (Z.of_nat k = ax \/ Z.of_nat k = ax + Z.of_nat n).

(** ** Sample inputs *)

(** No linear engine: SciPy is not installed. *)
Definition no_zoom : zoom_t := fun _ _ => None.

(** [np.arange(3*4*5).reshape(3,4,5)], the volume of the first self test. *)
Definition volume_345 : ndarray :=
  of_flat [3; 4; 5]%nat (map Z.of_nat (seq 0 60)).

(** A label stack of shape [(2, 1, 2)] named [img_cp_masks.tif], whose
    first plane is all background. *)
Definition masks_212 : tif_input :=
  {| path_stem := Some "img_cp_masks";
     pixels := of_flat [2; 1; 2]%nat [0; 0; 3; 4] |}.

(** The channel axis of a canonical layout: 1 in [(Z, C, Y, X)], 3 in
    [(Z, Y, X, C)], none in [(Z, Y, X)]. *)
Definition canonical_c_axis (cpos : option cpos_t) : option Z :=
  match cpos with
  | None => None
  | Some Before => Some 1
  | Some After => Some 3
  end.



(** Reading an axes tag letter by letter: each of ["Z"], ["Y"], ["X"]
    stands for the value given for it, any other letter for the channel's.
    With sizes this is the shape a tag announces; with coordinates, the
    index of an element in a tile with that tag. *)
Fixpoint tag_map (vz vy vx vc : nat) (tag : string) : list nat :=
  match tag with
  | EmptyString => []
  | String l r =>
      (if Ascii.eqb l "Z" then vz
       else if Ascii.eqb l "Y" then vy
       else if Ascii.eqb l "X" then vx
       else vc) :: tag_map vz vy vx vc r
  end.

(** The index of an element in the resampled volume, by its layout. *)
Definition canon_index (cpos : option cpos_t) (C : option nat) (z y x c : nat)
  : list nat :=
  match C, cpos with
  | None, _ => [z; y; x]
  | Some _, Some Before => [z; c; y; x]
  | Some _, _ => [z; y; x; c]
  end.

(** The file an [imwrite] call writes. *)
Definition event_path (e : event) : path :=
  match e with
  | Imwrite p _ _ _ => p
  | _ => []
  end.

(** A label stack of shape [(2, 1, 2)] that holds background only. *)
Definition background_212 : tif_input :=
  {| path_stem := Some "blank_cp_masks";
     pixels := of_flat [2; 1; 2]%nat [] |}.

(** ** Preferences *)

(** The values a preferences [dict] holds: [None], a [bool], a number
    ([int] or [float]), a [str], a [pathlib.Path] (by its text), or a JSON
    list or object. *)
Inductive pyval : Type :=
| VNone
| VBool (b : bool)
| VNum (q : Q)
| VStr (s : string)
| VPath (p : string)
| VJson.

(** A [dict] with [str] keys, in insertion order. *)
Definition dict : Type := list (string * pyval).

Fixpoint dict_get (d : dict) (k : string) : option pyval :=
  match d with
  | [] => None
  | (k', v) :: r => if String.eqb k' k then Some v else dict_get r k
  end.

(** [d[k] = v]: an existing key keeps its place. *)
Fixpoint dict_set (d : dict) (k : string) (v : pyval) : dict :=
  match d with
  | [] => [(k, v)]
  | (k', v') :: r =>
      if String.eqb k' k then (k', v) :: r else (k', v') :: dict_set r k v
  end.

(** [d1 | d2]. *)
Definition dict_union (d1 d2 : dict) : dict :=
  fold_left (fun acc kv => dict_set acc (fst kv) (snd kv)) d2 d1.

Definition dict_keys (d : dict) : list string := map fst d.

(** [DEFAULT_PREFS]; [cwd_out] is [str(Path.cwd() / "isotropic_slices")]
    at import time. *)
Definition DEFAULT_PREFS (cwd_out : string) : dict :=
  [("z_axis", VStr "first");
   ("c_axis", VStr "none");
   ("z_aspect", VNum 1);
   ("mode", VStr "labels");
   ("out_dir", VStr cwd_out);
   ("skip_empty", VBool false);
   ("last_input", VStr "")].

(** What a file is to [json.loads(Path(p).read_text())]: absent, not
    readable as JSON, or a JSON document, which is an object (a [dict]) or
    some other value.  A file written with [json.dumps] is represented by
    the document it holds. *)
Inductive file_content : Type :=
| Missing
| NotJson
| JsonObject (d : dict)
| JsonOther.

Definition filesystem : Type := string -> file_content.

Definition write_text (fs : filesystem) (p : string) (c : file_content) : filesystem :=
  fun q => if String.eqb q p then c else fs q.

(** [_prefs_path(override)]: [override] and the environment variable are
    [None] or a [str], and the empty string counts as absent. *)
Definition _prefs_path (override env : option string) (home : string) : string :=
  let truthy := fun o : option string =>
    match o with
    | Some s => negb (String.eqb s "")
    | None => false
    end in
  if truthy override then match override with Some s => s | None => "" end
  else if truthy env then match env with Some s => s | None => "" end
  else (home ++ "/.isotropic_slicer_prefs.json")%string.

(** [isinstance(v, (int, float))]; a [bool] is an [int]. *)
Definition is_number (v : pyval) : bool :=
  match v with
  | VNum _ | VBool _ => true
  | _ => false
  end.

Definition load_prefs (defaults : dict) (fs : filesystem)
    (path env : option string) (home : string) : dict :=
  match fs (_prefs_path path env home) with
  | JsonObject data =>
      let merged := dict_union defaults data in
      let z := match dict_get merged "z_aspect" with
               | Some v => v
               | None => VNum 1
               end in
      if negb (is_number z) then dict_set merged "z_aspect" (VNum 1) else merged
  | Missing => defaults
  | NotJson | JsonOther => defaults
  end.

(** [json.dumps] refuses a [Path]. *)
Definition serialisable (v : pyval) : bool :=
  match v with
  | VPath _ => false
  | _ => true
  end.

(** The [dict] [save_prefs] writes. *)
Definition sanitize (defaults prefs : dict) : dict :=
  let sanitized :=
    map (fun k => (k, match dict_get prefs k with
                      | Some v => v
                      | None => match dict_get defaults k with
                                | Some v => v
                                | None => VNone
                                end
                      end)) (dict_keys defaults) in
  fold_left (fun d key =>
               match dict_get d key with
               | Some (VPath p) => dict_set d key (VStr p)
               | _ => d
               end) ["out_dir"; "last_input"] sanitized.

Definition save_prefs (defaults prefs : dict) (fs : filesystem)
    (path env : option string) (home : string) : result filesystem :=
  let sanitized := sanitize defaults prefs in
  if forallb (fun kv => serialisable (snd kv)) sanitized
  then Ok (write_text fs (_prefs_path path env home) (JsonObject sanitized))
  else Err TypeError.

(** ** Command line: the axes *)

(** [s.index(c)] for a character; [None] when [c not in s]. *)
Fixpoint str_index (c : ascii) (s : string) : option nat :=
  match s with
  | EmptyString => None
  | String c' r =>
      if Ascii.eqb c' c then Some 0%nat else option_map S (str_index c r)
  end.

(** The axes [cli_main] hands to [save_isotropic_slices], from the
    [--z-axis] and [--c-axis] arguments ([None] when absent), the
    [--infer-axes] flag and what [infer_axes_metadata] returns for the
    input.  [None] stands for the [SystemExit] of a missing Z axis. *)
Definition cli_axes (infer_axes : bool) (z_axis c_axis : option string)
    (metadata : option string) : option (string * option string) :=
  let absent := fun o : option string =>
    match o with None => true | Some _ => false end in
  let '(z_axis, c_axis) :=
    if infer_axes && (absent z_axis || absent c_axis) then
      let meta_axes :=
        match metadata with
        | Some s => s          (* [x or ""] of the empty string is [""] too *)
        | None => ""
        end in
      let z_axis :=
        match z_axis, str_index "Z" meta_axes with
        | None, Some k => Some (str_of_nat k)
        | _, _ => z_axis
        end in
      let c_axis :=
        match c_axis with
        | None | Some "none" =>
            match str_index "C" meta_axes with
            | Some k => Some (str_of_nat k)
            | None => Some "none"
            end
        | _ => c_axis
        end in
      (z_axis, c_axis)
    else (z_axis, c_axis) in
  match z_axis with
  | None => None
  | Some z => Some (z, c_axis)
  end.

(** The axis argument [save_isotropic_slices] receives for an optional
    string. *)
Definition axis_arg_of (o : option string) : axis_arg :=
  match o with
  | Some s => AStr s
  | None => ANone
  end.

(** * Properties *)

(** ** Sanity checks of the embedding on concrete inputs *)

Example parse_axis_first : parse_axis (AStr " First ") 3 false = Ok (Some 0).
Proof. reflexivity. Qed.

Example parse_axis_underscore : parse_axis (AStr "1_0") 11 false = Ok (Some 10).
Proof. reflexivity. Qed.

Example parse_axis_none_refused : parse_axis (AStr "none") 3 false = Err InvalidAxisSpec.
Proof. reflexivity. Qed.

Example fmt04d_pads : (fmt04d 7, fmt04d 123) = ("0007", "0123").
Proof. reflexivity. Qed.

(** [0.9] and [1.05] are not floats: five times the float of the one is
    4.5 and ten times the float of the other 10.5, and both round to the
    even neighbour; three times [1e308] is beyond the range. *)
Example float_of_nine_tenths :
  py_float (9 # 10) = Ok (8106479329266893 # 9007199254740992).
Proof. vm_compute. reflexivity. Qed.

Example rounded_products :
  (let* a := py_float (9 # 10) in rounded_product 5 a) = Ok 4 /\
  (let* a := py_float (105 # 100) in rounded_product 10 a) = Ok 10 /\
  (let* a := py_float (inject_Z (10 ^ 308)) in new_z 3 a) = Err OverflowError.
Proof. repeat split; vm_compute; reflexivity. Qed.

Example strip_no_break_space :
  strip (String (ascii_of_nat 160) "2 ") = "2".
Proof. reflexivity. Qed.

(** ** Axis parsing *)

Lemma in_bounds_spec (i : Z) (n : nat) :
  in_bounds i n = true <-> - Z.of_nat n <= i < Z.of_nat n.
Proof. unfold in_bounds. rewrite andb_true_iff, Z.leb_le, Z.ltb_lt. tauto. Qed.

Lemma wrap_axis_range (i : Z) (n : nat) :
  in_bounds i n = true -> 0 <= wrap_axis i n < Z.of_nat n.
Proof.
  rewrite in_bounds_spec. unfold wrap_axis. intros H.
  destruct (Z.leb_spec 0 i); lia.
Qed.




(** ** Rounding *)

Lemma inject_Z_succ (a : Z) : Qeq (inject_Z (a + 1)) (Qplus (inject_Z a) 1).
Proof. rewrite inject_Z_plus. reflexivity. Qed.

Lemma round_half_even_inject (q : Q) (n : Z) :
  Qeq q (inject_Z n) -> round_half_even q = n.
Proof.
  intros H. unfold round_half_even.
  assert (Hf : Qfloor q = n) by (rewrite H; apply Qfloor_Z).
  rewrite Hf.
  assert (Hc : Qcompare (Qminus q (inject_Z n)) (1 # 2) = Lt).
  { apply Qlt_alt. rewrite H. unfold Qminus. rewrite Qplus_opp_r. reflexivity. }
  rewrite Hc. reflexivity.
Qed.

Lemma round_half_even_bounds (q : Q) :
  Qle (Qminus (inject_Z (round_half_even q)) (1 # 2)) q /\
  Qle q (Qplus (inject_Z (round_half_even q)) (1 # 2)).
Proof.
  unfold round_half_even.
  pose proof (Qfloor_le q) as Hl. pose proof (Qlt_floor q) as Hu.
  rewrite inject_Z_succ in Hu.
  destruct (Qcompare (Qminus q (inject_Z (Qfloor q))) (1 # 2)) eqn:Hc.
  - apply Qeq_alt in Hc.
    destruct (Z.even (Qfloor q)); rewrite ?inject_Z_succ; split; lra.
  - apply Qlt_alt in Hc. split; lra.
  - apply Qgt_alt in Hc. rewrite inject_Z_succ. split; lra.
Qed.

Lemma round_half_even_proper (q q' : Q) :
  Qeq q q' -> round_half_even q = round_half_even q'.
Proof.
  intros H. unfold round_half_even. rewrite (Qfloor_comp _ _ H).
  assert (Hc : Qcompare (Qminus q (inject_Z (Qfloor q'))) (1 # 2) =
               Qcompare (Qminus q' (inject_Z (Qfloor q'))) (1 # 2)).
  { apply Qcompare_comp; [|reflexivity]. rewrite H. reflexivity. }
  now rewrite Hc.
Qed.

Lemma round_half_even_mono (q q' : Q) :
  Qle q q' -> round_half_even q <= round_half_even q'.
Proof.
  intros H.
  destruct (Z.le_gt_cases (round_half_even q) (round_half_even q')) as [|Hgt];
    [assumption|].
  destruct (round_half_even_bounds q) as (Hl & _).
  destruct (round_half_even_bounds q') as (_ & Hu').
  assert (Hz : Qle (Qplus (inject_Z (round_half_even q')) 1)
                   (inject_Z (round_half_even q))).
  { rewrite <- inject_Z_succ, <- Zle_Qle. lia. }
  assert (E : Qeq q q') by lra.
  rewrite (round_half_even_proper _ _ E) in Hgt. lia.
Qed.


(** ** Floats *)

Lemma pow2_pos (e : Z) : Qlt 0 (Qpower 2 e).
Proof. apply Qpower_0_lt. reflexivity. Qed.

Lemma pow2_nonzero (e : Z) : ~ Qeq (Qpower 2 e) 0.
Proof. intros H. pose proof (pow2_pos e) as Hp. rewrite H in Hp. discriminate. Qed.

Lemma pow2_le (a b : Z) : a <= b -> Qle (Qpower 2 a) (Qpower 2 b).
Proof. intros H. apply Qpower_le_compat_l; [exact H | discriminate]. Qed.

Lemma pow2_le_inv (a b : Z) : Qle (Qpower 2 a) (Qpower 2 b) -> a <= b.
Proof. intros H. apply (Qpower_le_compat_l_inv 2); [exact H | reflexivity]. Qed.

Lemma pow2_inject (e : Z) : 0 <= e -> Qeq (Qpower 2 e) (inject_Z (2 ^ e)).
Proof. intros H. symmetry. exact (Zpower_Qpower 2 e H). Qed.

Lemma pow2_split (a b : Z) :
  Qeq (Qpower 2 a) (Qmult (Qpower 2 (a - b)) (Qpower 2 b)).
Proof.
  rewrite <- Qpower_plus by discriminate. replace (a - b + b) with a by lia. reflexivity.
Qed.

Lemma Qabs_pos_lt (q : Q) : ~ Qeq q 0 -> Qlt 0 (Qabs q).
Proof.
  intros H. destruct (Qlt_le_dec 0 (Qabs q)) as [|Hle]; [assumption|].
  exfalso. apply H.
  apply Qabs_Qle_condition in Hle. destruct Hle as (H1 & H2).
  apply Qle_antisym; [exact H2 | exact H1].
Qed.

Lemma Qeq_bool_false (q : Q) : ~ Qeq q 0 -> Qeq_bool q 0 = false.
Proof.
  intros H. destruct (Qeq_bool q 0) eqn:E; [|reflexivity].
  apply Qeq_bool_eq in E. contradiction.
Qed.

Lemma Qle_bool_false (x y : Q) : Qlt y x -> Qle_bool x y = false.
Proof.
  intros H. destruct (Qle_bool x y) eqn:E; [|reflexivity].
  apply Qle_bool_iff in E. exfalso. exact (Qlt_not_le _ _ H E).
Qed.

Lemma Qred_inject_Z (n : Z) : Qred (inject_Z n) = inject_Z n.
Proof.
  unfold Qred, inject_Z.
  pose proof (Z.ggcd_gcd n 1) as Hg. pose proof (Z.ggcd_correct_divisors n 1) as Hd.
  destruct (Z.ggcd n 1) as [g [aa bb]]. cbn [fst snd] in *.
  rewrite Z.gcd_1_r in Hg. subst g. destruct Hd as (Ha & Hb).
  rewrite Z.mul_1_l in Ha, Hb. subst aa bb. reflexivity.
Qed.


Lemma ilog2_proper (q q' : Q) : Qeq q q' -> ilog2 q = ilog2 q'.
Proof.
  intros H. unfold ilog2.
  assert (Ha : Qeq (Qabs q) (Qabs q')) by (apply Qabs_wd; exact H).
  assert (E1 : Qle_bool 1 (Qabs q) = Qle_bool 1 (Qabs q'))
    by (apply Qleb_comp; [reflexivity | exact Ha]).
  assert (E2 : Qfloor (Qabs q) = Qfloor (Qabs q')) by (apply Qfloor_comp; exact Ha).
  assert (E3 : Qceiling (Qinv (Qabs q)) = Qceiling (Qinv (Qabs q')))
    by (apply Qceiling_comp; rewrite Ha; reflexivity).
  now rewrite E1, E2, E3.
Qed.

(** [ilog2] is the binary logarithm rounded down: [|q|] lies in
    [[2^ilog2 q, 2^(ilog2 q + 1))]. *)
Lemma ilog2_bounds (q : Q) :
  ~ Qeq q 0 ->
  Qle (Qpower 2 (ilog2 q)) (Qabs q) /\ Qlt (Qabs q) (Qpower 2 (ilog2 q + 1)).
Proof.
  intros Hq. pose proof (Qabs_pos_lt q Hq) as Hpos. unfold ilog2.
  set (a := Qabs q) in *.
  destruct (Qle_bool 1 a) eqn:E.
  - apply Qle_bool_iff in E.
    assert (Hf : 1 <= Qfloor a).
    { change 1 with (Qfloor 1). apply Qfloor_resp_le. exact E. }
    destruct (Z.log2_spec (Qfloor a)) as (L1 & L2); [lia|].
    pose proof (Z.log2_nonneg (Qfloor a)) as Hl.
    split.
    + rewrite pow2_inject by exact Hl.
      apply Qle_trans with (inject_Z (Qfloor a)); [|apply Qfloor_le].
      rewrite <- Zle_Qle. exact L1.
    + rewrite pow2_inject by lia.
      apply Qlt_le_trans with (inject_Z (Qfloor a + 1)); [apply Qlt_floor|].
      rewrite <- Zle_Qle. fold (Z.succ (Z.log2 (Qfloor a))). lia.
  - assert (Ha : Qlt a 1).
    { apply Qnot_le_lt. intros H. apply Qle_bool_iff in H. congruence. }
    assert (Hinv : Qlt 1 (Qinv a)).
    { apply Qlt_shift_inv_l; [exact Hpos|]. rewrite Qmult_1_l. exact Ha. }
    set (c := Qceiling (Qinv a)).
    assert (Hc : 1 < c).
    { pose proof (Qle_ceiling (Qinv a)) as H. fold c in H.
      assert (Hlt : Qlt (inject_Z 1) (inject_Z c))
        by (apply Qlt_le_trans with (Qinv a); assumption).
      rewrite <- Zlt_Qlt in Hlt. exact Hlt. }
    destruct (Z.log2_up_spec c Hc) as (U1 & U2).
    pose proof (Z.log2_up_pos c Hc) as Hu.
    set (u := Z.log2_up c) in *.
    assert (Hinva : Qeq (Qmult a (Qinv a)) 1).
    { apply Qmult_inv_r. intros H. rewrite H in Hpos. discriminate. }
    split.
    + rewrite Qpower_opp. apply Qle_shift_inv_r; [apply pow2_pos|].
      rewrite pow2_inject by lia.
      rewrite <- Hinva. apply Qmult_le_l; [exact Hpos|].
      apply Qle_trans with (inject_Z c); [apply Qle_ceiling|].
      rewrite <- Zle_Qle. exact U2.
    + replace (- u + 1) with (- (u - 1)) by lia.
      rewrite Qpower_opp. apply Qlt_shift_inv_l; [apply pow2_pos|].
      rewrite pow2_inject by lia.
      rewrite <- Hinva. apply Qmult_lt_l; [exact Hpos|].
      apply Qle_lt_trans with (inject_Z (c - 1)); [|apply Qceiling_lt].
      rewrite <- Zle_Qle. fold (Z.pred u). lia.
Qed.

Lemma nearest64_proper (q q' : Q) : Qeq q q' -> Qeq (nearest64 q) (nearest64 q').
Proof.
  intros H. unfold nearest64, ulp_exp. rewrite (ilog2_proper _ _ H).
  set (e := Z.max (-1074) (ilog2 q' - 52)).
  assert (Em : round_half_even (Qdiv q (Qpower 2 e)) =
               round_half_even (Qdiv q' (Qpower 2 e)))
    by (apply round_half_even_proper; rewrite H; reflexivity).
  rewrite Em. reflexivity.
Qed.

Lemma float64_proper (q q' : Q) : Qeq q q' -> float64 q = float64 q'.
Proof.
  intros H. unfold float64.
  assert (E0 : Qeq_bool q 0 = Qeq_bool q' 0)
    by (apply Qeqb_comp; [exact H | reflexivity]).
  rewrite E0, (Qred_complete _ _ (nearest64_proper _ _ H)). reflexivity.
Qed.






(** A magnitude up to a power of two stays within it. *)
Lemma nearest64_bounded (q : Q) (j : Z) :
  -1074 <= j -> ~ Qeq q 0 -> Qle (Qabs q) (Qpower 2 j) ->
  Qle (Qabs (nearest64 q)) (Qpower 2 j).
Proof.
  intros Hj E0 Hq.
  destruct (ilog2_bounds q E0) as (Hk & _).
  assert (Hkj : ilog2 q <= j)
    by (apply pow2_le_inv; apply Qle_trans with (Qabs q); assumption).
  unfold nearest64. set (e := ulp_exp q).
  assert (He : e <= j) by (unfold e, ulp_exp; lia).
  set (x := Qdiv q (Qpower 2 e)).
  set (N := 2 ^ (j - e)).
  pose proof (pow2_pos e) as Hp.
  assert (HN : Qeq (Qpower 2 j) (Qmult (inject_Z N) (Qpower 2 e))).
  { unfold N. rewrite <- pow2_inject by lia. apply pow2_split. }
  assert (Hx : Qle (- inject_Z N) x /\ Qle x (inject_Z N)).
  { apply Qabs_Qle_condition in Hq. destruct Hq as (H1 & H2). unfold x. split.
    - apply Qle_shift_div_l; [exact Hp|].
      setoid_replace (- inject_Z N * Qpower 2 e)%Q
        with (- (inject_Z N * Qpower 2 e))%Q by ring.
      rewrite <- HN. exact H1.
    - apply Qle_shift_div_r; [exact Hp|]. rewrite <- HN. exact H2. }
  destruct Hx as (Hx1 & Hx2).
  apply round_half_even_mono in Hx1, Hx2.
  rewrite (round_half_even_inject (- inject_Z N) (- N)) in Hx1
    by (rewrite inject_Z_opp; reflexivity).
  rewrite (round_half_even_inject (inject_Z N) N) in Hx2 by reflexivity.
  set (m := round_half_even x) in *.
  rewrite HN. apply Qabs_Qle_condition. split.
  - setoid_replace (- (inject_Z N * Qpower 2 e))%Q
      with (inject_Z (- N) * Qpower 2 e)%Q by (rewrite inject_Z_opp; ring).
    apply Qmult_le_compat_r; [rewrite <- Zle_Qle; exact Hx1 | apply Qlt_le_weak; exact Hp].
  - apply Qmult_le_compat_r; [rewrite <- Zle_Qle; exact Hx2 | apply Qlt_le_weak; exact Hp].
Qed.

(** Below [2^1024] the result is finite. *)
Lemma float64_bounded (q : Q) (j : Z) :
  -1074 <= j < 1024 -> Qle (Qabs q) (Qpower 2 j) ->
  exists r, float64 q = Some r /\ Qle (Qabs r) (Qpower 2 j).
Proof.
  intros Hj Hq. unfold float64.
  destruct (Qeq_bool q 0) eqn:E0.
  { exists 0%Q. split; [reflexivity|]. apply Qlt_le_weak, pow2_pos. }
  apply Qeq_bool_neq in E0.
  assert (Hr : Qle (Qabs (Qred (nearest64 q))) (Qpower 2 j)).
  { rewrite (Qabs_wd _ _ (Qred_correct _)).
    apply nearest64_bounded; [lia | exact E0 | exact Hq]. }
  rewrite Qle_bool_false.
  - eexists. split; [reflexivity | exact Hr].
  - apply Qle_lt_trans with (Qpower 2 j); [exact Hr|].
    apply Qpower_lt_compat_l; [lia | reflexivity].
Qed.

(** A number that is a whole multiple of its unit in the last place is
    kept as it is. *)
Lemma float64_fixed (q : Q) (m : Z) :
  ~ Qeq q 0 ->
  Qeq q (Qmult (inject_Z m) (Qpower 2 (ulp_exp q))) ->
  Qlt (Qabs q) (Qpower 2 1024) ->
  float64 q = Some (Qred q).
Proof.
  intros Hq Hm Hb. unfold float64. rewrite (Qeq_bool_false q Hq).
  assert (Hn : Qeq (nearest64 q) q).
  { unfold nearest64. set (e := ulp_exp q) in *.
    rewrite (round_half_even_inject _ m); [symmetry; exact Hm|].
    rewrite Hm at 1. apply Qdiv_mult_l, pow2_nonzero. }
  rewrite (Qred_complete _ _ Hn).
  rewrite Qle_bool_false; [reflexivity|].
  rewrite (Qabs_wd _ _ (Qred_correct _)). exact Hb.
Qed.

Lemma ilog2_inject_Z (n : Z) : n <> 0 -> ilog2 (inject_Z n) = Z.log2 (Z.abs n).
Proof.
  intros Hn. unfold ilog2.
  change (Qabs (inject_Z n)) with (inject_Z (Z.abs n)).
  assert (E : Qle_bool 1 (inject_Z (Z.abs n)) = true).
  { apply Qle_bool_iff. change 1%Q with (inject_Z 1). rewrite <- Zle_Qle. lia. }
  rewrite E, Qfloor_Z. reflexivity.
Qed.

(** Whole numbers up to [2^53] are floats. *)
Lemma float64_Z (n : Z) :
  Z.abs n <= 2 ^ 53 -> float64 (inject_Z n) = Some (inject_Z n).
Proof.
  intros Hn.
  destruct (Z.eq_dec n 0) as [->|H0]; [reflexivity|].
  destruct (Z.eq_dec (Z.abs n) (2 ^ 53)) as [E|E].
  { assert (n = 2 ^ 53 \/ n = - 2 ^ 53) as [-> | ->] by lia; vm_compute; reflexivity. }
  assert (Hl : 0 <= Z.log2 (Z.abs n) <= 52).
  { split; [apply Z.log2_nonneg|].
    assert (Z.log2 (Z.abs n) < 53); [|lia]. apply Z.log2_lt_pow2; lia. }
  rewrite <- (Qred_inject_Z n) at 2.
  apply (float64_fixed (inject_Z n) (n * 2 ^ (52 - Z.log2 (Z.abs n)))).
  - change 0%Q with (inject_Z 0). rewrite inject_Z_injective. exact H0.
  - unfold ulp_exp. rewrite (ilog2_inject_Z n H0).
    replace (Z.max (-1074) (Z.log2 (Z.abs n) - 52))
      with (- (52 - Z.log2 (Z.abs n))) by lia.
    rewrite inject_Z_mult, <- pow2_inject by lia.
    rewrite <- Qmult_assoc, <- Qpower_plus by discriminate.
    replace (52 - Z.log2 (Z.abs n) + - (52 - Z.log2 (Z.abs n))) with 0 by lia.
    cbn [Qpower]. ring.
  - change (Qabs (inject_Z n)) with (inject_Z (Z.abs n)).
    rewrite pow2_inject by lia. rewrite <- Zlt_Qlt.
    apply Z.le_lt_trans with (2 ^ 53); [exact Hn | reflexivity].
Qed.

(** ** The target size *)


Lemma py_float_error (x : Q) (e : error) : py_float x = Err e -> e = OverflowError.
Proof. unfold py_float. destruct (float64 x); congruence. Qed.

Lemma py_float_Z (n : Z) :
  Z.abs n <= 2 ^ 53 -> py_float (inject_Z n) = Ok (inject_Z n).
Proof. intros H. unfold py_float. now rewrite float64_Z. Qed.

Lemma py_float_bounded (x : Q) (j : Z) :
  -1074 <= j < 1024 -> Qle (Qabs x) (Qpower 2 j) ->
  exists f, py_float x = Ok f /\ Qle (Qabs f) (Qpower 2 j).
Proof.
  intros Hj Hx. destruct (float64_bounded x j Hj Hx) as (f & Hf & Hb).
  exists f. unfold py_float. rewrite Hf. auto.
Qed.

Lemma new_z_error (Zs : nat) (a : Q) (e : error) :
  new_z Zs a = Err e -> e = OverflowError.
Proof.
  unfold new_z, rounded_product, int_times_float, py_round.
  destruct (py_float (inject_Z (Z.of_nat Zs))) as [f|e'] eqn:Ef; cbn [rbind].
  - destruct (float64 (Qmult f a)); cbn [rbind]; congruence.
  - intros [= <-]. exact (py_float_error _ _ Ef).
Qed.

Lemma new_z_positive (Zs : nat) (a : Q) (n : Z) : new_z Zs a = Ok n -> 1 <= n.
Proof.
  unfold new_z. destruct (rounded_product Zs a) as [r|]; cbn [rbind]; [|discriminate].
  intros [= <-]. lia.
Qed.

Lemma new_z_of_product (Zs : nat) (a : Q) (r : Z) :
  rounded_product Zs a = Ok r -> new_z Zs a = Ok (Z.max 1 r).
Proof. unfold new_z. now intros ->. Qed.



(** The product is in range for every size that fits a signed 64-bit
    integer and every aspect of magnitude up to [2^960]. *)
Lemma rounded_product_total (Zs : nat) (a : Q) :
  Z.of_nat Zs <= 2 ^ 63 -> Qle (Qabs a) (Qpower 2 960) ->
  exists r, rounded_product Zs a = Ok r.
Proof.
  intros Hz Ha. unfold rounded_product, int_times_float, py_round.
  destruct (py_float_bounded (inject_Z (Z.of_nat Zs)) 63) as (f & Ef & Hf); [lia| |].
  { change (Qabs (inject_Z (Z.of_nat Zs))) with (inject_Z (Z.abs (Z.of_nat Zs))).
    rewrite pow2_inject by lia. rewrite <- Zle_Qle. lia. }
  rewrite Ef. cbn [rbind].
  destruct (float64_bounded (Qmult f a) 1023) as (p & Ep & _); [lia| |].
  { rewrite Qabs_Qmult. rewrite (pow2_split 1023 960). change (1023 - 960) with 63.
    apply Qmult_le_compat_nonneg; split;
      [apply Qabs_nonneg | exact Hf | apply Qabs_nonneg | exact Ha]. }
  rewrite Ep. eexists. reflexivity.
Qed.

Lemma new_z_total (Zs : nat) (z_aspect : Q) :
  Z.of_nat Zs <= 2 ^ 63 -> Qle (Qabs z_aspect) (Qpower 2 960) ->
  exists a n, py_float z_aspect = Ok a /\ new_z Zs a = Ok n.
Proof.
  intros Hz Ha.
  destruct (py_float_bounded z_aspect 960) as (a & Ea & Hb); [lia | exact Ha|].
  destruct (rounded_product_total Zs a Hz Hb) as (r & Er).
  exists a, (Z.max 1 r). split; [exact Ea | exact (new_z_of_product _ _ _ Er)].
Qed.

(** A whole aspect: the product is exact as long as it stays within the
    53 bits of a float. *)
Lemma rounded_product_whole (Zs : nat) (m : Z) :
  (1 <= Zs)%nat -> m <> 0 -> Z.of_nat Zs * Z.abs m <= 2 ^ 53 ->
  py_float (inject_Z m) = Ok (inject_Z m) /\
  rounded_product Zs (inject_Z m) = Ok (Z.of_nat Zs * m).
Proof.
  intros Hz Hm0 Hb.
  assert (Hm : Z.abs m <= 2 ^ 53) by nia.
  assert (Hs : Z.abs (Z.of_nat Zs) <= 2 ^ 53) by nia.
  split; [exact (py_float_Z m Hm)|].
  unfold rounded_product, int_times_float, py_round.
  rewrite (py_float_Z _ Hs). cbn [rbind].
  rewrite (float64_proper _ (inject_Z (Z.of_nat Zs * m)))
    by (rewrite inject_Z_mult; reflexivity).
  rewrite float64_Z by (rewrite Z.abs_mul; lia).
  f_equal. apply round_half_even_inject. reflexivity.
Qed.

Lemma new_z_one (Zs : nat) :
  (1 <= Zs)%nat -> Z.of_nat Zs <= 2 ^ 53 ->
  py_float 1 = Ok 1%Q /\ new_z Zs 1 = Ok (Z.of_nat Zs).
Proof.
  intros Hz Hb.
  destruct (rounded_product_whole Zs 1 Hz) as (_ & Hr); [lia | lia|].
  split; [reflexivity|].
  change 1%Q with (inject_Z 1). rewrite (new_z_of_product _ _ _ Hr). f_equal. lia.
Qed.

(** ** Multi-indices *)

Lemma in_indices (sh ix : list nat) :
  In ix (indices sh) <-> Forall2 lt ix sh.
Proof.
  revert ix. induction sh as [|n sh IH]; intros ix; cbn [indices].
  - split.
    + intros [<- | []]. constructor.
    + intros H. inversion H. now left.
  - rewrite in_flat_map. split.
    + intros (i & Hi & Hm). apply in_map_iff in Hm as (r & <- & Hr).
      apply in_seq in Hi. constructor; [lia | now apply IH].
    + intros H. inversion H as [|i n' r sh' Hlt Hr]; subst.
      exists i. split; [apply in_seq; lia|].
      apply in_map. now apply IH.
Qed.

Lemma indices_nonempty (sh : list nat) :
  Forall (lt 0) sh -> indices sh <> [].
Proof.
  intros H.
  assert (Hin : In (map (fun _ => 0%nat) sh) (indices sh)).
  { apply in_indices. induction H; cbn; constructor; assumption. }
  intros E. rewrite E in Hin. destruct Hin.
Qed.

(** ** Gathering planes along axis 0 *)

Lemma take0_ok (arr : ndarray) (Zs : nat) (rest : list nat) (idx : list Z) :
  shape arr = Zs :: rest ->
  Forall (fun i => 0 <= i < Z.of_nat Zs) idx ->
  exists out,
    take0 arr idx = Ok out /\
    shape out = List.length idx :: rest /\
    (forall k r, (k < List.length idx)%nat ->
       item out (k :: r) = item arr (Z.to_nat (nth k idx 0) :: r)).
Proof.
  intros Hs Hidx. unfold take0. rewrite Hs.
  assert (Hb : forallb (fun i => in_bounds i Zs) idx = true).
  { apply forallb_forall. intros i Hi.
    rewrite Forall_forall in Hidx. apply in_bounds_spec.
    specialize (Hidx i Hi). lia. }
  rewrite Hb. eexists. split; [reflexivity|]. split; [reflexivity|].
  intros k r Hk. cbn.
  assert (Hn : 0 <= nth k idx 0 < Z.of_nat Zs).
  { rewrite Forall_forall in Hidx. apply Hidx. apply nth_In. exact Hk. }
  destruct (Z.ltb_spec (nth k idx 0) 0); [lia | reflexivity].
Qed.

Lemma planes_elements (out arr : ndarray) :
  planes_from out arr ->
  tl (shape out) = tl (shape arr) ->
  shape out <> [] -> shape arr <> [] ->
  incl (elements out) (elements arr).
Proof.
  intros Hp Ht Ho Ha v Hv. unfold elements in *.
  apply in_map_iff in Hv as (ix & <- & Hix).
  apply in_indices in Hix.
  destruct (shape out) as [|n so] eqn:Eo; [congruence|].
  destruct (shape arr) as [|m sa] eqn:Ea; [congruence|].
  cbn in Ht. subst sa.
  inversion Hix as [|k n' r so' Hk Hr]; subst.
  destruct (Hp k) as (j & Hj & Hitem); [rewrite Eo; exact Hk|].
  rewrite Hitem. apply in_map. apply in_indices.
  rewrite Ea in Hj. constructor; assumption.
Qed.

Lemma clip_range (lo hi i : Z) : lo <= hi -> lo <= clip lo hi i <= hi.
Proof. unfold clip. lia. Qed.

Lemma nearest_z_ok (arr : ndarray) (Zs : nat) (rest : list nat) (newZ : Z) :
  shape arr = Zs :: rest -> (1 <= Zs)%nat ->
  exists out,
    nearest_z arr Zs newZ = Ok out /\
    shape out = Z.to_nat newZ :: rest /\
    planes_from out arr /\
    incl (elements out) (elements arr).
Proof.
  intros Hs Hz. unfold nearest_z.
  set (raw := map round_half_even (linspace (Z.of_nat Zs - 1) (Z.to_nat newZ))).
  assert (Hlen : List.length (map (clip 0 (Z.of_nat Zs - 1)) raw) = Z.to_nat newZ).
  { unfold raw. rewrite !length_map. unfold linspace.
    destruct (Z.to_nat newZ) as [|[|d]]; [reflexivity..|].
    rewrite length_map, length_seq. reflexivity. }
  destruct (take0_ok arr Zs rest (map (clip 0 (Z.of_nat Zs - 1)) raw) Hs)
    as (out & Hout & Hshape & Hitem).
  { apply Forall_forall. intros i Hi. apply in_map_iff in Hi as (x & <- & _).
    pose proof (clip_range 0 (Z.of_nat Zs - 1) x). lia. }
  rewrite Hlen in Hshape.
  assert (Hp : planes_from out arr).
  { intros k Hk. rewrite Hshape in Hk. cbn in Hk.
    exists (Z.to_nat (nth k (map (clip 0 (Z.of_nat Zs - 1)) raw) 0)). split.
    - rewrite Hs. cbn.
      assert (Hin : In (nth k (map (clip 0 (Z.of_nat Zs - 1)) raw) 0)
                       (map (clip 0 (Z.of_nat Zs - 1)) raw))
        by (apply nth_In; rewrite Hlen; exact Hk).
      apply in_map_iff in Hin as (x & <- & _).
      pose proof (clip_range 0 (Z.of_nat Zs - 1) x). lia.
    - intros r. apply Hitem. rewrite Hlen. exact Hk. }
  exists out. split; [exact Hout|]. split; [exact Hshape|]. split; [exact Hp|].
  apply planes_elements; [exact Hp | rewrite Hshape, Hs; reflexivity | | ];
    [rewrite Hshape | rewrite Hs]; discriminate.
Qed.

(** ** Resampling *)

Lemma planes_from_refl (arr : ndarray) : planes_from arr arr.
Proof. intros k Hk. exists k. split; [exact Hk | reflexivity]. Qed.

Lemma resample_same_size (zoom : zoom_t) (arr : ndarray) (Zs : nat) (rest : list nat)
    (z_aspect a : Q) (mode : string) :
  shape arr = Zs :: rest ->
  py_float z_aspect = Ok a ->
  new_z Zs a = Ok (Z.of_nat Zs) ->
  resample_z_isotropic zoom arr z_aspect mode = Ok arr.
Proof.
  intros Hs Ha Hn. unfold resample_z_isotropic. rewrite Ha. cbn [rbind].
  rewrite Hs, Hn. cbn [rbind]. rewrite Z.eqb_refl. reflexivity.
Qed.

(** Labels mode and the image-mode fallback run the nearest-neighbour path. *)
Lemma resample_nearest (zoom : zoom_t) (arr : ndarray) (Zs : nat) (rest : list nat)
    (z_aspect a : Q) (n : Z) (mode : string) :
  shape arr = Zs :: rest ->
  py_float z_aspect = Ok a ->
  new_z Zs a = Ok n ->
  n <> Z.of_nat Zs ->
  (mode = "image" -> forall f, zoom arr f = None) ->
  resample_z_isotropic zoom arr z_aspect mode = nearest_z arr Zs n.
Proof.
  intros Hs Ha Hn Hne Hz. unfold resample_z_isotropic. rewrite Ha. cbn [rbind].
  rewrite Hs, Hn. cbn [rbind].
  destruct (Z.eqb_spec n (Z.of_nat Zs)) as [E|_]; [contradiction|].
  destruct (String.eqb_spec mode "image") as [E|_]; [|reflexivity].
  destruct (Zs =? 0)%nat; [reflexivity|].
  destruct (int_truediv n (Z.of_nat Zs)); [|reflexivity].
  rewrite (Hz E). reflexivity.
Qed.

(** The only way the arithmetic of the target size fails. *)
Lemma resample_overflow (zoom : zoom_t) (arr : ndarray) (Zs : nat) (rest : list nat)
    (z_aspect : Q) (mode : string) :
  shape arr = Zs :: rest ->
  py_float z_aspect = Err OverflowError \/
  (exists a, py_float z_aspect = Ok a /\ new_z Zs a = Err OverflowError) ->
  resample_z_isotropic zoom arr z_aspect mode = Err OverflowError.
Proof.
  intros Hs [Ha | (a & Ha & Hn)]; unfold resample_z_isotropic; rewrite Ha; cbn [rbind];
    [reflexivity|].
  rewrite Hs, Hn. reflexivity.
Qed.

(** Every outcome of a resampling without a working linear engine: the
    target size is out of range, or the result holds [newZ] planes of the
    input. *)
Lemma resample_cases (zoom : zoom_t) (arr : ndarray) (Zs : nat) (rest : list nat)
    (z_aspect : Q) (mode : string) :
  shape arr = Zs :: rest -> (1 <= Zs)%nat ->
  (mode = "image" -> forall f, zoom arr f = None) ->
  (resample_z_isotropic zoom arr z_aspect mode = Err OverflowError /\
   (py_float z_aspect = Err OverflowError \/
    exists a, py_float z_aspect = Ok a /\ new_z Zs a = Err OverflowError)) \/
  (exists a n out,
     py_float z_aspect = Ok a /\ new_z Zs a = Ok n /\
     resample_z_isotropic zoom arr z_aspect mode = Ok out /\
     shape out = Z.to_nat n :: rest /\
     planes_from out arr /\
     incl (elements out) (elements arr)).
Proof.
  intros Hs Hz Hzoom.
  destruct (py_float z_aspect) as [a|e] eqn:Ea.
  2:{ left. assert (e = OverflowError) as -> by exact (py_float_error _ _ Ea).
      split; [|left; reflexivity].
      apply (resample_overflow zoom arr Zs rest); [exact Hs | left; exact Ea]. }
  destruct (new_z Zs a) as [n|e] eqn:En.
  2:{ left. assert (e = OverflowError) as -> by exact (new_z_error _ _ _ En).
      assert (Ho : exists a0, Ok a = Ok a0 /\ new_z Zs a0 = Err OverflowError)
        by (exists a; split; [reflexivity | exact En]).
      split; [|right; exact Ho].
      apply (resample_overflow zoom arr Zs rest); [exact Hs | right; exists a; auto]. }
  right. exists a, n.
  destruct (Z.eq_dec n (Z.of_nat Zs)) as [E|E].
  - exists arr. subst n. split; [reflexivity|]. split; [exact En|].
    split; [exact (resample_same_size zoom arr Zs rest _ a mode Hs Ea En)|].
    rewrite Nat2Z.id. split; [exact Hs|].
    split; [apply planes_from_refl | apply incl_refl].
  - destruct (nearest_z_ok arr Zs rest n Hs Hz) as (out & Ho & Hsh & Hp & Hi).
    exists out. split; [reflexivity|]. split; [exact En|].
    rewrite (resample_nearest zoom arr Zs rest z_aspect a n mode Hs Ea En E Hzoom).
    auto.
Qed.

(** C1.  Nearest-neighbour resampling of a volume with a non-empty Z axis
    succeeds for every target size, every output plane is a copy of an
    input plane, and every output element value occurs in the input.  So
    it is for [resample_z_isotropic] in labels mode and whenever the
    linear engine of image mode is unavailable or fails: the call returns
    such a volume, unless the target size itself is out of the float range
    and [OverflowError] is raised; it does return for every size that fits
    a signed 64-bit integer and every aspect of magnitude up to [2^960]. *)
Theorem C1_nearest_preserves_values
    (zoom : zoom_t) (arr : ndarray) (Zs : nat) (rest : list nat) :
  shape arr = Zs :: rest -> (1 <= Zs)%nat ->
  (forall newZ : Z,
      exists out, nearest_z arr Zs newZ = Ok out /\
                  shape out = Z.to_nat newZ :: rest /\
                  planes_from out arr /\
                  incl (elements out) (elements arr)) /\
  (forall (z_aspect : Q) (mode : string),
      (mode = "image" -> forall f, zoom arr f = None) ->
      (resample_z_isotropic zoom arr z_aspect mode = Err OverflowError \/
       exists out, resample_z_isotropic zoom arr z_aspect mode = Ok out /\
                   planes_from out arr /\
                   incl (elements out) (elements arr)) /\
      (Z.of_nat Zs <= 2 ^ 63 -> Qle (Qabs z_aspect) (Qpower 2 960) ->
       exists out, resample_z_isotropic zoom arr z_aspect mode = Ok out /\
                   planes_from out arr /\
                   incl (elements out) (elements arr))).
Proof.
  intros Hs Hz. split.
  - intros newZ. exact (nearest_z_ok arr Zs rest newZ Hs Hz).
  - intros z_aspect mode Hzoom.
    destruct (resample_cases zoom arr Zs rest z_aspect mode Hs Hz Hzoom)
      as [(He & Hw) | (a & n & out & Ea & En & Ho & _ & Hp & Hi)].
    + split; [left; exact He|].
      intros Hb Ha. exfalso.
      destruct (new_z_total Zs z_aspect Hb Ha) as (a & n & Ea & En).
      destruct Hw as [Hw | (a' & Ea' & En')]; [congruence|].
      rewrite Ea in Ea'. injection Ea' as <-. congruence.
    + split; [right|intros _ _]; exists out; auto.
Qed.

Lemma C1_nearest_preserves_values_witness :
  exists out,
    resample_z_isotropic no_zoom volume_345 2 "labels" = Ok out /\
    planes_from out volume_345 /\
    incl (elements out) (elements volume_345).
Proof.
  refine (proj2 (proj2 (C1_nearest_preserves_values no_zoom volume_345 3 [4; 5]%nat
                          eq_refl _) 2%Q "labels" _) _ _).
  - lia.
  - discriminate.
  - vm_compute. discriminate.
  - apply Qle_bool_iff. vm_compute. reflexivity.
Defined.

(** C2.  On a volume with a non-empty Z axis, an aspect of 1 returns the
    input volume itself, in every mode, for every Z size that a float
    holds exactly (up to [2^53] planes); so does every aspect for which
    [newZ] equals the current Z size. *)
Theorem C2_resample_identity
    (zoom : zoom_t) (arr : ndarray) (Zs : nat) (rest : list nat) (mode : string) :
  shape arr = Zs :: rest -> (1 <= Zs)%nat ->
  (Z.of_nat Zs <= 2 ^ 53 -> resample_z_isotropic zoom arr 1 mode = Ok arr) /\
  (forall z_aspect a : Q,
      py_float z_aspect = Ok a ->
      new_z Zs a = Ok (Z.of_nat Zs) ->
      resample_z_isotropic zoom arr z_aspect mode = Ok arr).
Proof.
  intros Hs Hz. split.
  - intros Hb. destruct (new_z_one Zs Hz Hb) as (Ha & Hn).
    exact (resample_same_size zoom arr Zs rest 1 1 mode Hs Ha Hn).
  - intros z_aspect a Ha Hn.
    exact (resample_same_size zoom arr Zs rest z_aspect a mode Hs Ha Hn).
Qed.

Lemma C2_resample_identity_witness :
  resample_z_isotropic no_zoom volume_345 1 "image" = Ok volume_345 /\
  resample_z_isotropic no_zoom volume_345 (11 # 10) "labels" = Ok volume_345.
Proof.
  destruct (C2_resample_identity no_zoom volume_345 3 [4; 5]%nat "image" eq_refl) as [H1 _];
    [lia|].
  destruct (C2_resample_identity no_zoom volume_345 3 [4; 5]%nat "labels" eq_refl) as [_ H2];
    [lia|].
  split; [apply H1; vm_compute; discriminate|].
  apply (H2 (11 # 10) (2476979795053773 # 2251799813685248)); vm_compute; reflexivity.
Defined.





(** C9, as stated, fails: not every aspect [<= 0] is accepted.  With the
    aspect [-1e308] on a volume of three planes the product [Z * z_aspect]
    is beyond the float range and [round] raises [OverflowError]. *)
Lemma C9_huge_negative_aspect_overflows :
  (exists a, py_float (- inject_Z (10 ^ 308)) = Ok a /\
             int_times_float 3 a = Ok None) /\
  resample_z_isotropic no_zoom volume_345 (- inject_Z (10 ^ 308)) "labels"
    = Err OverflowError.
Proof.
  split; [eexists; split|]; vm_compute; reflexivity.
Qed.



(** ** Transposition *)

Lemma prod_permutation (l l' : list nat) :
  Permutation l l' -> prod l = prod l'.
Proof.
  unfold prod.
  induction 1 as [|x l l' _ IH|x y l|l l' l'' _ IH1 _ IH2]; cbn.
  - reflexivity.
  - now rewrite IH.
  - apply Nat.mul_shuffle3.
  - congruence.
Qed.

Lemma map_nth_seq_id (sh : list nat) :
  map (fun k => nth k sh 0%nat) (seq 0 (List.length sh)) = sh.
Proof.
  induction sh as [|n sh IH]; [reflexivity|].
  cbn [List.length seq map nth]. f_equal.
  rewrite <- seq_shift, map_map. exact IH.
Qed.

Lemma nodupb_NoDup (l : list nat) : nodupb l = true -> NoDup l.
Proof.
  induction l as [|x r IH]; cbn; intros H; constructor.
  - apply andb_true_iff in H as [H _]. apply negb_true_iff in H.
    intros Hin. assert (existsb (Nat.eqb x) r = true); [|congruence].
    apply existsb_exists. exists x. split; [exact Hin | apply Nat.eqb_refl].
  - apply IH. apply andb_true_iff in H as [_ H]. exact H.
Qed.

Lemma normalize_axis_inv (n : nat) (ax : Z) (k : nat) :
  normalize_axis n ax = Ok k -> axis_of n ax k.
Proof.
  unfold normalize_axis, axis_of. destruct (in_bounds ax n) eqn:Hb; [|discriminate].
  apply in_bounds_spec in Hb. intros [= <-].
  destruct (Z.ltb_spec ax 0).
  - split; [lia|]. rewrite Z2Nat.id by lia. split; [|now right].
    rewrite <- (Z_mod_plus_full ax 1 (Z.of_nat n)), Z.mul_1_l, Z.mod_small by lia.
    reflexivity.
  - split; [lia|]. rewrite Z2Nat.id, Z.mod_small by lia. split; [reflexivity | now left].
Qed.

Lemma mapM_normalize_inv (n : nat) (perm : list Z) (p : list nat) :
  mapM (normalize_axis n) perm = Ok p ->
  Forall2 (axis_of n) perm p.
Proof.
  revert p. induction perm as [|ax r IH]; intros p; cbn.
  - intros [= <-]. constructor.
  - destruct (normalize_axis n ax) as [k|] eqn:Hk; [|discriminate]. cbn.
    destruct (mapM (normalize_axis n) r) as [ks|]; [|discriminate]. cbn.
    intros [= <-]. constructor; [now apply normalize_axis_inv | now apply IH].
Qed.

Lemma Forall2_right_elim {A B} (R : A -> B -> Prop) (l : list A) (l' : list B) (y : B) :
  Forall2 R l l' -> In y l' -> exists x, In x l /\ R x y.
Proof.
  induction 1 as [|a b l l' Hab _ IH]; intros Hin; [destruct Hin|].
  destruct Hin as [<- | Hin].
  - exists a. split; [now left | exact Hab].
  - destruct (IH Hin) as (x & Hx & Hr). exists x. split; [now right | exact Hr].
Qed.

(** A successful transposition applies a permutation of the axes. *)
Lemma transpose_inv (arr : ndarray) (perm : list Z) (out : ndarray) :
  transpose arr perm = Ok out ->
  exists p,
    mapM (normalize_axis (ndim arr)) perm = Ok p /\
    Permutation p (seq 0 (ndim arr)) /\
    shape out = map (fun k => nth k (shape arr) 0%nat) p /\
    (forall ix, item out ix =
       item arr (map (fun j => nth (find_pos j p) ix 0%nat) (seq 0 (ndim arr)))).
Proof.
  unfold transpose.
  destruct (List.length perm =? ndim arr)%nat eqn:Hl; [|discriminate]. cbn [negb].
  apply Nat.eqb_eq in Hl.
  destruct (mapM (normalize_axis (ndim arr)) perm) as [p|] eqn:Hp; [|discriminate].
  cbn [rbind]. destruct (nodupb p) eqn:Hd; [|discriminate]. cbn [negb].
  intros [= <-]. exists p.
  pose proof (mapM_normalize_inv _ _ _ Hp) as HF.
  split; [reflexivity|]. split; [|split; reflexivity].
  apply NoDup_Permutation_bis.
  - now apply nodupb_NoDup.
  - rewrite length_seq, <- Hl, (Forall2_length HF). apply Nat.le_refl.
  - intros k Hk. apply in_seq. cbn.
    destruct (Forall2_right_elim _ _ _ k HF Hk) as (ax & _ & Hlt & _).
    lia.
Qed.

Lemma transpose_size (arr : ndarray) (perm : list Z) (out : ndarray) :
  transpose arr perm = Ok out -> size out = size arr.
Proof.
  intros H. apply transpose_inv in H as (p & _ & Hperm & Hs & _).
  unfold size. rewrite Hs.
  transitivity (prod (map (fun k => nth k (shape arr) 0%nat) (seq 0 (ndim arr)))).
  - apply prod_permutation, Permutation_map. exact Hperm.
  - unfold ndim. now rewrite map_nth_seq_id.
Qed.

(** ** Canonicalisation *)

(** C3.  On a 4-D input whose Z and channel axes resolve to distinct
    dimensions, if the channel axis lies strictly between the two remaining
    axes [y] and [x], canonicalisation fails with [ChannelBetweenXY]. *)
Theorem C3_channel_between_rejected (arr : ndarray) (z_axis c_axis y x : Z) :
  ndim arr = 4%nat ->
  in_bounds z_axis 4 = true -> in_bounds c_axis 4 = true ->
  wrap_axis z_axis 4 <> wrap_axis c_axis 4 ->
  0 <= y -> x < 4 ->
  y <> wrap_axis z_axis 4 -> x <> wrap_axis z_axis 4 ->
  y < wrap_axis c_axis 4 < x ->
  canonicalize_preserve_c_side arr z_axis (Some c_axis) = Err ChannelBetweenXY.
Proof.
  intros Hn Hz Hc Hne Hy Hx Hyz Hxz Hb.
  unfold canonicalize_preserve_c_side, canonical_perm. rewrite Hn.
  apply wrap_axis_range in Hz, Hc.
  set (za := wrap_axis z_axis 4) in *. set (ca := wrap_axis c_axis 4) in *.
  clearbody za ca.
  assert (Ez : za = 0 \/ za = 1 \/ za = 2 \/ za = 3) by lia.
  assert (Ec : ca = 1 \/ ca = 2) by lia.
  destruct Ez as [-> | [-> | [-> | ->]]]; destruct Ec as [-> | ->];
    try reflexivity; exfalso; lia.
Qed.

Lemma C3_channel_between_rejected_witness :
  canonicalize_preserve_c_side (of_flat [4; 5; 6; 3]%nat []) 0 (Some 2)
    = Err ChannelBetweenXY.
Proof.
  apply (C3_channel_between_rejected (of_flat [4; 5; 6; 3]%nat []) 0 2 1 3);
    try reflexivity; try discriminate; vm_compute; split; reflexivity.
Defined.

Lemma range3 : range 3 = [0; 1; 2].
Proof. reflexivity. Qed.

Lemma range4 : range 4 = [0; 1; 2; 3].
Proof. reflexivity. Qed.

(** Case analysis on the axis tests of [canonical_perm]. *)
Ltac split_tests H :=
  repeat match type of H with
         | context [Z.eqb ?a ?b] =>
             destruct (Z.eqb_spec a b); try subst; try lia;
             cbn [negb orb andb filter list_get nth_error rbind
                  list_min list_max fold_left] in H
         end;
  repeat match type of H with
         | context [if ?b then _ else _] => destruct b eqn:?
         end.

(** In a permutation of the right length, Z leads, the channel sits on its
    side, and the two remaining axes follow in increasing order. *)
Lemma canonical_perm_order (nd : nat) (z_axis : Z) (c_axis : option Z)
    (perm : list Z) (cpos : option cpos_t) :
  canonical_perm nd z_axis c_axis = Ok (perm, cpos) ->
  List.length perm = nd ->
  nth 0 perm 0 = wrap_axis z_axis nd /\
  match c_axis with
  | Some c => nd = 4%nat /\
              exists cp, cpos = Some cp /\ nth (c_pos cp) perm 0 = wrap_axis c nd
  | None => nd = 3%nat /\ cpos = None /\ 0 <= wrap_axis z_axis nd < 3
  end /\
  0 <= nth (y_pos cpos) perm 0 < nth (S (y_pos cpos)) perm 0 /\
  nth (S (y_pos cpos)) perm 0 < Z.of_nat nd.
Proof.
  unfold canonical_perm. intros H Hlen.
  set (za := wrap_axis z_axis nd) in *. clearbody za.
  destruct c_axis as [c|].
  - set (ca := wrap_axis c nd) in *. clearbody ca.
    destruct (Nat.eqb_spec nd 4) as [->|]; [|discriminate]. cbn [negb] in H.
    rewrite range4 in H. cbn [filter] in H.
    split_tests H; try discriminate;
      injection H as <- <-; cbn;
      (split; [reflexivity|]); (split; [split; [reflexivity|eauto]|lia]).
  - destruct (Nat.eqb_spec nd 3) as [->|]; [|discriminate]. cbn [negb] in H.
    rewrite range3 in H. cbn [filter] in H.
    split_tests H; try discriminate;
      injection H as <- <-; try discriminate Hlen; cbn;
      (split; [reflexivity|]);
      (split; [split; [reflexivity|split; [reflexivity|lia]]|lia]).
Qed.

Lemma Forall2_nth_both {A B} (R : A -> B -> Prop) (l : list A) (l' : list B)
    (d : A) (d' : B) (i : nat) :
  Forall2 R l l' -> (i < List.length l)%nat -> R (nth i l d) (nth i l' d').
Proof.
  intros H. revert i. induction H as [|a b l l' Hab _ IH]; intros i Hi; cbn in Hi.
  - lia.
  - destruct i as [|i]; cbn; [exact Hab | apply IH; lia].
Qed.

Lemma axis_of_nonneg (n : nat) (ax : Z) (k : nat) :
  axis_of n ax k -> 0 <= ax < Z.of_nat n -> Z.of_nat k = ax.
Proof. unfold axis_of. lia. Qed.

(** C6.  When canonicalisation succeeds, the output has as many elements
    as the input; without a channel axis the resolved Z axis is within the
    three dimensions and its size is the size of output axis 0; and the
    output is the input under an axis permutation [p] (output axis [k] is
    input axis [p k]) that puts Z first, the channel on its side, and the
    two remaining axes at the Y and X positions in increasing order, that
    is, in the order they had in the input. *)
Theorem C6_canonicalize_preserves
    (arr : ndarray) (z_axis : Z) (c_axis : option Z)
    (out : ndarray) (cpos : option cpos_t) :
  canonicalize_preserve_c_side arr z_axis c_axis = Ok (out, cpos) ->
  size out = size arr /\
  (c_axis = None ->
     exists za : nat,
       Z.of_nat za = wrap_axis z_axis (ndim arr) /\ (za < ndim arr)%nat /\
       nth 0 (shape out) 0%nat = nth za (shape arr) 0%nat) /\
  exists p : list nat,
    Permutation p (seq 0 (ndim arr)) /\
    shape out = map (fun k => nth k (shape arr) 0%nat) p /\
    (forall ix, item out ix =
       item arr (map (fun j => nth (find_pos j p) ix 0%nat) (seq 0 (ndim arr)))) /\
    Z.of_nat (nth 0 p 0%nat) = wrap_axis z_axis (ndim arr) mod Z.of_nat (ndim arr) /\
    (forall c, c_axis = Some c ->
       exists cp, cpos = Some cp /\
         Z.of_nat (nth (c_pos cp) p 0%nat)
           = wrap_axis c (ndim arr) mod Z.of_nat (ndim arr)) /\
    (nth (y_pos cpos) p 0 < nth (S (y_pos cpos)) p 0)%nat.
Proof.
  intros H. unfold canonicalize_preserve_c_side in H.
  destruct (canonical_perm (ndim arr) z_axis c_axis) as [[perm cp]|] eqn:Hperm;
    [|discriminate].
  cbn [rbind] in H.
  destruct (transpose arr perm) as [t|] eqn:Ht; [|discriminate].
  cbn [rbind] in H. injection H as -> ->.
  pose proof (transpose_size _ _ _ Ht) as Hsize.
  destruct (transpose_inv _ _ _ Ht) as (p & Hp & Hpm & Hsh & Hit).
  pose proof (mapM_normalize_inv _ _ _ Hp) as HF.
  assert (Hlp : List.length p = ndim arr)
    by (rewrite (Permutation_length Hpm); apply length_seq).
  assert (Hlen : List.length perm = ndim arr)
    by (rewrite (Forall2_length HF); exact Hlp).
  destruct (canonical_perm_order _ _ _ _ _ Hperm Hlen) as (Hz & Hc & Hy & Hx).
  assert (Hnd : (3 <= ndim arr)%nat /\ (S (y_pos cpos) < ndim arr)%nat).
  { destruct c_axis; [destruct Hc as (-> & [[|] [-> _]]) | destruct Hc as (-> & -> & _)];
      cbn; lia. }
  assert (A0 : axis_of (ndim arr) (nth 0 perm 0) (nth 0 p 0%nat))
    by (apply Forall2_nth_both; [exact HF | lia]).
  assert (AY : axis_of (ndim arr) (nth (y_pos cpos) perm 0) (nth (y_pos cpos) p 0%nat))
    by (apply Forall2_nth_both; [exact HF | lia]).
  assert (AX : axis_of (ndim arr) (nth (S (y_pos cpos)) perm 0)
                       (nth (S (y_pos cpos)) p 0%nat))
    by (apply Forall2_nth_both; [exact HF | lia]).
  apply (axis_of_nonneg (ndim arr)) in AY; [|lia].
  apply (axis_of_nonneg (ndim arr)) in AX; [|lia].
  split; [exact Hsize|]. split.
  - intros ->. destruct Hc as (E3 & _ & Hr).
    exists (nth 0 p 0%nat). rewrite Hz in A0.
    split; [|split].
    + apply (axis_of_nonneg (ndim arr)); [exact A0 | lia].
    + destruct A0 as (Hlt & _). exact Hlt.
    + rewrite Hsh. destruct p as [|k0 p']; [cbn in Hlp; lia | reflexivity].
  - exists p. split; [exact Hpm|]. split; [exact Hsh|]. split; [exact Hit|].
    split; [|split].
    + rewrite <- Hz. destruct A0 as (_ & Hm & _). exact Hm.
    + intros c ->. destruct Hc as (E4 & cp & -> & Hcp).
      exists cp. split; [reflexivity|]. rewrite <- Hcp.
      assert (AC : axis_of (ndim arr) (nth (c_pos cp) perm 0) (nth (c_pos cp) p 0%nat)).
      { apply Forall2_nth_both; [exact HF|]. destruct cp; cbn; lia. }
      destruct AC as (_ & Hm & _). exact Hm.
    + lia.
Qed.

Lemma C6_canonicalize_preserves_witness :
  exists out,
    canonicalize_preserve_c_side volume_345 (-2) None = Ok (out, None) /\
    size out = size volume_345 /\
    shape out = [4; 3; 5]%nat.
Proof.
  eexists. split; [reflexivity|].
  split.
  - exact (proj1 (C6_canonicalize_preserves volume_345 (-2) None _ None eq_refl)).
  - reflexivity.
Defined.

(** ** The slice writer *)

Lemma writes_app (l l' : list event) : writes (l ++ l') = writes l ++ writes l'.
Proof. apply filter_app. Qed.

Lemma progress_calls_app (l l' : list event) :
  progress_calls (l ++ l') = progress_calls l ++ progress_calls l'.
Proof. apply flat_map_app. Qed.

Lemma Forall_firstn_skipn (P : nat -> Prop) (k : nat) (l : list nat) :
  Forall P l -> Forall P (firstn k l ++ skipn (S k) l).
Proof.
  intros H. rewrite Forall_forall in *. intros x Hx. apply H.
  apply in_app_or in Hx as [Hx | Hx].
  - rewrite <- (firstn_skipn k l). apply in_or_app. now left.
  - rewrite <- (firstn_skipn (S k) l). apply in_or_app. now right.
Qed.

Lemma np_max_ok (t : ndarray) :
  Forall (lt 0%nat) (shape t) -> exists m, np_max t = Ok m.
Proof.
  intros H. unfold np_max, elements.
  destruct (indices (shape t)) as [|ix r] eqn:E.
  - exfalso. exact (indices_nonempty _ H E).
  - cbn. eexists. reflexivity.
Qed.

Lemma fix_axis_positive (k i : nat) (a : ndarray) :
  Forall (lt 0%nat) (shape a) -> Forall (lt 0%nat) (shape (fix_axis k i a)).
Proof. intros H. cbn. now apply Forall_firstn_skipn. Qed.

Lemma swapaxes01_positive (a : ndarray) :
  Forall (lt 0%nat) (shape a) -> Forall (lt 0%nat) (shape (swapaxes01 a)).
Proof.
  intros H. cbn. destruct (shape a) as [|m [|n r]]; try assumption.
  inversion H as [|? ? Hm H']; subst. inversion H' as [|? ? Hn Hr]; subst.
  repeat constructor; assumption.
Qed.

Section WriterFacts.
Variables (arr_iso : ndarray) (cpos : option cpos_t) (C : option nat).
Variables (stem : string) (out_base : path) (skip_empty progress_cb : bool).
Variables (Zd Yd Xd : nat).

Local Abbreviation tile_fn := (nat -> ndarray * option string * string).
Local Abbreviation step_ := (step stem out_base skip_empty progress_cb Zd Yd Xd).
Local Abbreviation loop_ := (loop_events stem out_base skip_empty progress_cb Zd Yd Xd).
Local Abbreviation imwrite_ := (imwrite_of stem out_base).
Local Abbreviation max_defined := (max_defined skip_empty).

Lemma step_run (dir : string) (tile_of : tile_fn) (n i : nat) (s : wstate) :
  max_defined tile_of i ->
  step_ dir tile_of n i s =
    ({| done := S (done s);
        trace := trace s ++
          (if skipped skip_empty tile_of i then [] else [imwrite_ dir tile_of i]) ++
          (if progress_cb
           then [ProgressCb (S (done s)) (Zd + Yd + Xd) (note_of dir i n)] else []) |},
     Ok tt).
Proof.
  unfold max_defined, step, skipped, imwrite_of, write_tile, wbind, wlift, report, emit, wret.
  intros Hm. destruct (tile_of i) as [[tile pc] axes]. cbn [fst].
  destruct skip_empty.
  - destruct (Hm eq_refl) as (m & Em). cbn [fst] in Em. rewrite Em. cbn [andb].
    destruct (m =? 0); cbn [done trace]; destruct progress_cb;
      rewrite <- ?app_assoc, ?app_nil_r; reflexivity.
  - cbn [andb done trace]. destruct progress_cb;
      rewrite <- ?app_assoc, ?app_nil_r; reflexivity.
Qed.

Lemma wfor_run (dir : string) (tile_of : tile_fn) (n : nat) (l : list nat) :
  (forall i, In i l -> max_defined tile_of i) ->
  forall s,
    wfor l (step_ dir tile_of n) s =
      ({| done := done s + List.length l;
          trace := trace s ++ loop_ dir tile_of n (done s) l |}, Ok tt).
Proof.
  induction l as [|i r IH]; intros Hm s.
  - cbn. rewrite Nat.add_0_r, app_nil_r. destruct s; reflexivity.
  - cbn [wfor]. unfold wbind at 1. rewrite step_run by (apply Hm; now left).
    rewrite IH by (intros j Hj; apply Hm; now right).
    cbn [done trace loop_events List.length]. f_equal. f_equal.
    + lia.
    + rewrite <- !app_assoc. reflexivity.
Qed.

Lemma writes_loop (dir : string) (tile_of : tile_fn) (n d : nat) (l : list nat) :
  writes (loop_ dir tile_of n d l) =
    map (imwrite_ dir tile_of) (filter (fun i => negb (skipped skip_empty tile_of i)) l).
Proof.
  revert d. induction l as [|i r IH]; intros d; [reflexivity|].
  cbn [loop_events filter]. rewrite !writes_app, IH.
  assert (Hw : writes [imwrite_ dir tile_of i] = [imwrite_ dir tile_of i]).
  { unfold imwrite_of. destruct (tile_of i) as [[t pc] ax]. reflexivity. }
  destruct (skipped skip_empty tile_of i); cbn [negb map];
    destruct progress_cb; rewrite ?Hw; reflexivity.
Qed.

Lemma progress_loop (dir : string) (tile_of : tile_fn) (n d : nat) (l : list nat) :
  progress_cb = true ->
  progress_calls (loop_ dir tile_of n d l) =
    map (fun k => (k, Zd + Yd + Xd)%nat) (seq (S d) (List.length l)).
Proof.
  intros ->. revert d. induction l as [|i r IH]; intros d; [reflexivity|].
  cbn [loop_events List.length seq map]. rewrite !progress_calls_app, IH.
  destruct (skipped skip_empty tile_of i); [reflexivity|].
  unfold imwrite_of. destruct (tile_of i) as [[t pc] ax]. reflexivity.
Qed.

Lemma write_slices_run (s : wstate) :
  (skip_empty = true -> Forall (lt 0%nat) (shape arr_iso)) ->
  write_slices arr_iso cpos C stem out_base skip_empty progress_cb Zd Yd Xd s =
    ({| done := done s + Zd + Yd + Xd;
        trace := trace s ++
          loop_ "xy" (xy_tile arr_iso cpos C) Zd (done s) (seq 0 Zd) ++
          loop_ "zx" (zx_tile arr_iso cpos C) Yd (done s + Zd) (seq 0 Yd) ++
          loop_ "zy" (zy_tile arr_iso cpos C) Xd (done s + Zd + Yd) (seq 0 Xd) |},
     Ok tt).
Proof.
  intros Hpos. unfold write_slices, wbind.
  rewrite wfor_run, wfor_run, wfor_run.
  - cbn [done trace]. rewrite !length_seq, <- !app_assoc. reflexivity.
  - intros i _ Hs. unfold zy_tile.
    destruct C; [destruct cpos as [[|]|]|]; cbn [fst];
      auto using np_max_ok, fix_axis_positive, swapaxes01_positive.
  - intros i _ Hs. unfold zx_tile.
    destruct C; [destruct cpos as [[|]|]|]; cbn [fst];
      auto using np_max_ok, fix_axis_positive, swapaxes01_positive.
  - intros i _ Hs. unfold xy_tile.
    destruct C; [destruct cpos as [[|]|]|]; cbn [fst];
      auto using np_max_ok, fix_axis_positive, swapaxes01_positive.
Qed.
End WriterFacts.

(** ** Stems and suffixes *)

Lemma length_append (a b : string) :
  String.length (a ++ b) = (String.length a + String.length b)%nat.
Proof. induction a as [|c a IH]; cbn; [reflexivity | now rewrite IH]. Qed.

Lemma substring_all (s : string) : substring 0 (String.length s) s = s.
Proof. induction s as [|c s IH]; cbn; [reflexivity | now rewrite IH]. Qed.

Lemma substring_skip (a b : string) (m : nat) :
  substring (String.length a) m (a ++ b) = substring 0 m b.
Proof. induction a as [|c a IH]; cbn; [reflexivity | exact IH]. Qed.

Lemma substring_prefix (a b : string) :
  substring 0 (String.length a) (a ++ b) = a.
Proof.
  induction a as [|c a IH]; cbn; [destruct b; reflexivity | now rewrite IH].
Qed.

Lemma substring_split (n : nat) (s : string) :
  (n <= String.length s)%nat ->
  s = (substring 0 n s ++ substring n (String.length s - n) s)%string.
Proof.
  revert n. induction s as [|c s IH]; intros n Hn; cbn in Hn.
  - destruct n; [reflexivity | lia].
  - destruct n as [|n].
    + cbn. now rewrite substring_all.
    + cbn. f_equal. apply IH. lia.
Qed.

Lemma endswith_append (base suf : string) : endswith (base ++ suf) suf = true.
Proof.
  unfold endswith. rewrite length_append.
  replace (String.length base + String.length suf - String.length suf)%nat
    with (String.length base) by lia.
  rewrite substring_skip, substring_all, String.eqb_refl, andb_true_r.
  apply Nat.leb_le. lia.
Qed.

Lemma endswith_inv (s suf : string) :
  endswith s suf = true ->
  s = (drop_last (String.length suf) s ++ suf)%string.
Proof.
  unfold endswith, drop_last. intros H.
  apply andb_true_iff in H as [Hl He].
  apply Nat.leb_le in Hl. apply String.eqb_eq in He.
  assert (Hsp := substring_split (String.length s - String.length suf) s).
  replace (String.length s - (String.length s - String.length suf))%nat
    with (String.length suf) in Hsp by lia.
  rewrite He in Hsp. apply Hsp. lia.
Qed.

Lemma drop_last_append (base suf : string) :
  drop_last (String.length suf) (base ++ suf) = base.
Proof.
  unfold drop_last. rewrite length_append.
  replace (String.length base + String.length suf - String.length suf)%nat
    with (String.length base) by lia.
  apply substring_prefix.
Qed.

Lemma image_stem_suffix (base : string) :
  image_stem "labels" (base ++ cp_mask_suffix) = base.
Proof.
  unfold image_stem. rewrite String.eqb_refl, endswith_append.
  apply drop_last_append.
Qed.

Lemma image_stem_unchanged (mode stem : string) :
  mode <> "labels" \/ (forall base, stem <> (base ++ cp_mask_suffix)%string) ->
  image_stem mode stem = stem.
Proof.
  unfold image_stem. intros [Hm | Hs].
  - apply String.eqb_neq in Hm. now rewrite Hm.
  - destruct (String.eqb mode "labels"); [|reflexivity].
    destruct (endswith stem cp_mask_suffix) eqn:E; [|reflexivity].
    apply endswith_inv in E. exfalso. exact (Hs _ E).
Qed.

(** ** Whole exports *)

Lemma filter_all {A} (l : list A) : filter (fun _ => true) l = l.
Proof. induction l as [|x r IH]; cbn; [reflexivity | now rewrite IH]. Qed.

(** The dimensions an export works with are read off the resampled volume. *)
Lemma prepare_dims (zoom : zoom_t) (tif : tif_input) (z_aspect : Q)
    (z_axis c_axis : axis_arg) (mode : string)
    (arr_iso : ndarray) (cpos : option cpos_t) (dims : nat * nat * nat * option nat) :
  prepare zoom tif z_aspect z_axis c_axis mode = Ok (arr_iso, cpos, dims) ->
  unpack_shape arr_iso cpos = Ok dims.
Proof.
  unfold prepare. intros H.
  destruct (parse_axis z_axis (ndim (pixels tif)) false) as [za|];
    cbn [rbind] in H; [|discriminate].
  destruct (parse_axis c_axis (ndim (pixels tif)) true) as [ca|];
    cbn [rbind] in H; [|discriminate].
  destruct za as [za|]; cbn [rbind] in H; [|discriminate].
  destruct (canonicalize_preserve_c_side (pixels tif) za ca) as [[arr_can cp]|];
    cbn [rbind] in H; [|discriminate].
  destruct (resample_z_isotropic zoom arr_can z_aspect mode) as [a|];
    cbn [rbind] in H; [|discriminate].
  destruct (unpack_shape a cp) as [d|] eqn:E; cbn [rbind] in H; [|discriminate].
  injection H as <- <- <-. exact E.
Qed.

(** The complete run of an export whose preparation succeeds and whose
    skip tests raise nothing. *)
Lemma save_run (zoom : zoom_t) (tif : tif_input) (out_dir : path) (z_aspect : Q)
    (z_axis c_axis : axis_arg) (mode : string) (skip_empty progress_cb : bool)
    (arr_iso : ndarray) (cpos : option cpos_t) (Zd Yd Xd : nat) (C : option nat) :
  prepare zoom tif z_aspect z_axis c_axis mode = Ok (arr_iso, cpos, (Zd, Yd, Xd, C)) ->
  (skip_empty = true -> Forall (lt 0%nat) (shape arr_iso)) ->
  let stem := stem_of tif in
  let out_base := path_div out_dir (image_stem mode stem) in
  let loop := loop_events stem out_base skip_empty progress_cb Zd Yd Xd in
  exists sm,
    run (save_isotropic_slices zoom tif out_dir z_aspect z_axis c_axis mode
           skip_empty progress_cb) =
      ({| done := Zd + Yd + Xd;
          trace := [Mkdir (path_div out_base "xy"); Mkdir (path_div out_base "zx");
                    Mkdir (path_div out_base "zy")] ++
                   loop "xy" (xy_tile arr_iso cpos C) Zd 0%nat (seq 0 Zd) ++
                   loop "zx" (zx_tile arr_iso cpos C) Yd Zd (seq 0 Yd) ++
                   loop "zy" (zy_tile arr_iso cpos C) Xd (Zd + Yd)%nat (seq 0 Xd) |},
       Ok sm) /\
    (sum_Z sm, sum_Y sm, sum_X sm, sum_C sm) = (Zd, Yd, Xd, C).
Proof.
  intros Hprep Hpos stem out_base loop.
  unfold run, save_isotropic_slices. unfold wbind at 1. unfold wlift. rewrite Hprep.
  fold stem out_base. unfold wbind, emit. cbn [done trace List.app].
  rewrite write_slices_run by exact Hpos. cbn [done trace wret].
  eexists. split; reflexivity.
Qed.

(** C7.  With [skip_empty = False], an export whose preparation yields the
    resampled volume with dimensions [Z, Y, X] completes and hands the
    sink exactly the XY tiles 0..Z-1, then the ZX tiles 0..Y-1, then the ZY
    tiles 0..X-1: [Z + Y + X] tiles in all. *)
Theorem C7_tiles_in_order (zoom : zoom_t) (tif : tif_input) (out_dir : path)
    (z_aspect : Q) (z_axis c_axis : axis_arg) (mode : string) (progress_cb : bool)
    (arr_iso : ndarray) (cpos : option cpos_t) (Zd Yd Xd : nat) (C : option nat) :
  prepare zoom tif z_aspect z_axis c_axis mode = Ok (arr_iso, cpos, (Zd, Yd, Xd, C)) ->
  let stem := stem_of tif in
  let out_base := path_div out_dir (image_stem mode stem) in
  let final := run (save_isotropic_slices zoom tif out_dir z_aspect z_axis c_axis mode
                      false progress_cb) in
  unpack_shape arr_iso cpos = Ok (Zd, Yd, Xd, C) /\
  (exists sm, snd final = Ok sm /\ (sum_Z sm, sum_Y sm, sum_X sm) = (Zd, Yd, Xd)) /\
  writes (trace (fst final)) =
    map (imwrite_of stem out_base "xy" (xy_tile arr_iso cpos C)) (seq 0 Zd) ++
    map (imwrite_of stem out_base "zx" (zx_tile arr_iso cpos C)) (seq 0 Yd) ++
    map (imwrite_of stem out_base "zy" (zy_tile arr_iso cpos C)) (seq 0 Xd) /\
  List.length (writes (trace (fst final))) = (Zd + Yd + Xd)%nat.
Proof.
  intros Hprep stem out_base final.
  destruct (save_run zoom tif out_dir z_aspect z_axis c_axis mode false progress_cb
              arr_iso cpos Zd Yd Xd C Hprep) as (sm & Hrun & Hsm);
    [discriminate|].
  fold stem out_base in Hrun. subst final. rewrite Hrun. cbn [fst snd trace].
  assert (Hw : writes
    ([Mkdir (path_div out_base "xy"); Mkdir (path_div out_base "zx");
      Mkdir (path_div out_base "zy")] ++
     loop_events stem out_base false progress_cb Zd Yd Xd "xy"
       (xy_tile arr_iso cpos C) Zd 0 (seq 0 Zd) ++
     loop_events stem out_base false progress_cb Zd Yd Xd "zx"
       (zx_tile arr_iso cpos C) Yd Zd (seq 0 Yd) ++
     loop_events stem out_base false progress_cb Zd Yd Xd "zy"
       (zy_tile arr_iso cpos C) Xd (Zd + Yd) (seq 0 Xd)) =
    map (imwrite_of stem out_base "xy" (xy_tile arr_iso cpos C)) (seq 0 Zd) ++
    map (imwrite_of stem out_base "zx" (zx_tile arr_iso cpos C)) (seq 0 Yd) ++
    map (imwrite_of stem out_base "zy" (zy_tile arr_iso cpos C)) (seq 0 Xd)).
  { rewrite !writes_app, !writes_loop. cbn [writes filter is_imwrite List.app].
    unfold skipped. cbn [andb negb].
    rewrite !filter_all. reflexivity. }
  split; [exact (prepare_dims _ _ _ _ _ _ _ _ _ Hprep)|]. split; [|split].
  - exists sm. split; [reflexivity | congruence].
  - exact Hw.
  - rewrite Hw, !length_app, !length_map, !length_seq. lia.
Qed.

Lemma C7_tiles_in_order_witness :
  List.length (writes (trace (fst (run (save_isotropic_slices no_zoom masks_212 ["out"]
    2 (AStr "first") (AStr "none") "labels" false true))))) = 7%nat.
Proof.
  exact (proj2 (proj2 (proj2 (C7_tiles_in_order no_zoom masks_212 ["out"] 2
    (AStr "first") (AStr "none") "labels" true _ _ 4 1 2 None eq_refl)))).
Defined.

(** C8.  For either value of [skip_empty], an export of a volume without
    empty dimensions that was given a progress callback calls it once per
    tile, after the tile was written or skipped, with [done] running
    through [1, 2, ..., Z+Y+X] and [total = Z+Y+X]; a tile whose maximum is
    zero under [skip_empty] is not written but is counted all the same. *)
Theorem C8_progress_per_tile (zoom : zoom_t) (tif : tif_input) (out_dir : path)
    (z_aspect : Q) (z_axis c_axis : axis_arg) (mode : string) (skip_empty : bool)
    (arr_iso : ndarray) (cpos : option cpos_t) (Zd Yd Xd : nat) (C : option nat) :
  prepare zoom tif z_aspect z_axis c_axis mode = Ok (arr_iso, cpos, (Zd, Yd, Xd, C)) ->
  (skip_empty = true -> Forall (lt 0%nat) (shape arr_iso)) ->
  let stem := stem_of tif in
  let out_base := path_div out_dir (image_stem mode stem) in
  let loop := loop_events stem out_base skip_empty true Zd Yd Xd in
  let kept := fun tile_of => filter (fun i => negb (skipped skip_empty tile_of i)) in
  let final := run (save_isotropic_slices zoom tif out_dir z_aspect z_axis c_axis mode
                      skip_empty true) in
  (exists sm, snd final = Ok sm) /\
  done (fst final) = (Zd + Yd + Xd)%nat /\
  progress_calls (trace (fst final)) =
    map (fun k => (k, Zd + Yd + Xd)%nat) (seq 1 (Zd + Yd + Xd)) /\
  trace (fst final) =
    [Mkdir (path_div out_base "xy"); Mkdir (path_div out_base "zx");
     Mkdir (path_div out_base "zy")] ++
    loop "xy" (xy_tile arr_iso cpos C) Zd 0%nat (seq 0 Zd) ++
    loop "zx" (zx_tile arr_iso cpos C) Yd Zd (seq 0 Yd) ++
    loop "zy" (zy_tile arr_iso cpos C) Xd (Zd + Yd)%nat (seq 0 Xd) /\
  writes (trace (fst final)) =
    map (imwrite_of stem out_base "xy" (xy_tile arr_iso cpos C))
        (kept (xy_tile arr_iso cpos C) (seq 0 Zd)) ++
    map (imwrite_of stem out_base "zx" (zx_tile arr_iso cpos C))
        (kept (zx_tile arr_iso cpos C) (seq 0 Yd)) ++
    map (imwrite_of stem out_base "zy" (zy_tile arr_iso cpos C))
        (kept (zy_tile arr_iso cpos C) (seq 0 Xd)).
Proof.
  intros Hprep Hpos stem out_base loop kept final.
  destruct (save_run zoom tif out_dir z_aspect z_axis c_axis mode skip_empty true
              arr_iso cpos Zd Yd Xd C Hprep Hpos) as (sm & Hrun & _).
  fold stem out_base loop in Hrun. subst final. rewrite Hrun. cbn [fst snd trace done].
  split; [exists sm; reflexivity|]. split; [reflexivity|]. split; [|split].
  - rewrite !progress_calls_app. subst loop. rewrite !progress_loop by reflexivity.
    rewrite !length_seq. cbn [progress_calls flat_map List.app].
    rewrite <- !map_app. f_equal.
    rewrite <- Nat.add_assoc, seq_app, seq_app. reflexivity.
  - reflexivity.
  - rewrite !writes_app. subst loop. rewrite !writes_loop. reflexivity.
Qed.

Lemma C8_progress_per_tile_witness :
  let final := run (save_isotropic_slices no_zoom masks_212 ["out"] 1
                      (AStr "first") (AStr "none") "labels" true true) in
  progress_calls (trace (fst final)) = [(1, 5); (2, 5); (3, 5); (4, 5); (5, 5)]%nat /\
  List.length (writes (trace (fst final))) = 4%nat.
Proof.
  assert (H := C8_progress_per_tile no_zoom masks_212 ["out"] 1
                 (AStr "first") (AStr "none") "labels" true
                 _ None 2 1 2 None eq_refl
                 (fun _ => ltac:(repeat constructor))).
  cbv zeta in H. destruct H as (_ & _ & Hp & _ & Hw).
  split; [exact Hp|]. rewrite Hw. reflexivity.
Defined.

(** ** Where the files go *)

Lemma adds_only_ret {A} (P : event -> Prop) (a : A) : adds_only P (wret a).
Proof. intros s. exists []. split; [symmetry; apply app_nil_r | constructor]. Qed.

Lemma adds_only_lift {A} (P : event -> Prop) (r : result A) : adds_only P (wlift r).
Proof. intros s. exists []. split; [symmetry; apply app_nil_r | constructor]. Qed.

Lemma adds_only_emit (P : event -> Prop) (e : event) : P e -> adds_only P (emit e).
Proof. intros H s. exists [e]. split; [reflexivity | repeat constructor; exact H]. Qed.

Lemma adds_only_bind {A B} (P : event -> Prop) (m : W A) (k : A -> W B) :
  adds_only P m -> (forall a, adds_only P (k a)) -> adds_only P (wbind m k).
Proof.
  intros Hm Hk s. unfold wbind. destruct (Hm s) as (e1 & E1 & F1).
  destruct (m s) as [s1 [a|e]]; cbn [fst] in *.
  - destruct (Hk a s1) as (e2 & E2 & F2). exists (e1 ++ e2). split.
    + rewrite E2, E1. symmetry. apply app_assoc.
    + apply Forall_app. split; assumption.
  - exists e1. split; assumption.
Qed.

Lemma adds_only_report (P : event -> Prop) (cb : bool) (total : nat) (note : string) :
  (forall d, P (ProgressCb d total note)) -> adds_only P (report cb total note).
Proof.
  intros H s. unfold report. cbn [fst trace]. destruct cb.
  - eexists. split; [reflexivity | repeat constructor; apply H].
  - exists []. split; [symmetry; apply app_nil_r | constructor].
Qed.

Lemma adds_only_write_tile (P : event -> Prop) (sk : bool) (p : path) (tile : ndarray)
    (pc : option string) (axes : string) :
  P (Imwrite p tile pc axes) -> adds_only P (write_tile sk p tile pc axes).
Proof.
  intros H. unfold write_tile. destruct sk.
  - apply adds_only_bind; [apply adds_only_lift|].
    intros m. destruct (m =? 0); [apply adds_only_ret | now apply adds_only_emit].
  - now apply adds_only_emit.
Qed.

Lemma adds_only_wfor (P : event -> Prop) (l : list nat) (body : nat -> W unit) :
  (forall i, adds_only P (body i)) -> adds_only P (wfor l body).
Proof.
  intros H. induction l as [|i r IH]; cbn [wfor].
  - apply adds_only_ret.
  - apply adds_only_bind; [apply H | intros _; exact IH].
Qed.

Lemma adds_only_step (arr_stem : string) (out_base : path) (sk cb : bool)
    (Zd Yd Xd : nat) (dir : string)
    (tile_of : nat -> ndarray * option string * string) (n i : nat) :
  adds_only (event_under out_base arr_stem)
    (step arr_stem out_base sk cb Zd Yd Xd dir tile_of n i).
Proof.
  unfold step. destruct (tile_of i) as [[tile pc] axes].
  apply adds_only_bind.
  - apply adds_only_write_tile. cbn [event_under]. exists dir, i. reflexivity.
  - intros _. apply adds_only_report. intros d. exact I.
Qed.

Lemma adds_only_write_slices (arr_iso : ndarray) (cpos : option cpos_t) (C : option nat)
    (stem : string) (out_base : path) (sk cb : bool) (Zd Yd Xd : nat) :
  adds_only (event_under out_base stem)
    (write_slices arr_iso cpos C stem out_base sk cb Zd Yd Xd).
Proof.
  unfold write_slices.
  repeat (apply adds_only_bind; [|intros _]);
    apply adds_only_wfor; intros i; apply adds_only_step.
Qed.

(** C10.  The output directory is [out_dir / image_stem]: in labels mode
    with a stem [base ++ "_cp_masks"] it is [out_dir / base]; in any other
    mode, or when the stem has no such suffix, it is [out_dir / stem].  In
    every case the three directories are created below it and every tile
    file is named after the full stem. *)
Theorem C10_output_directory_stem (zoom : zoom_t) (tif : tif_input) (out_dir : path)
    (z_aspect : Q) (z_axis c_axis : axis_arg) (mode : string)
    (skip_empty progress_cb : bool) :
  let stem := stem_of tif in
  let out_base := path_div out_dir (image_stem mode stem) in
  let final := run (save_isotropic_slices zoom tif out_dir z_aspect z_axis c_axis mode
                      skip_empty progress_cb) in
  (forall base, mode = "labels" -> stem = (base ++ "_cp_masks")%string ->
     out_base = path_div out_dir base) /\
  (mode <> "labels" \/ (forall base, stem <> (base ++ "_cp_masks")%string) ->
     out_base = path_div out_dir stem) /\
  Forall (event_under out_base stem) (trace (fst final)) /\
  (forall sm, snd final = Ok sm -> sum_out_dir sm = out_base).
Proof.
  intros stem out_base final. split; [|split; [|split]].
  - intros base -> E. subst out_base. rewrite E.
    f_equal. apply image_stem_suffix.
  - intros H. subst out_base. now rewrite (image_stem_unchanged mode stem H).
  - assert (Ha : adds_only (event_under out_base stem)
                   (save_isotropic_slices zoom tif out_dir z_aspect z_axis c_axis mode
                      skip_empty progress_cb)).
    { unfold save_isotropic_slices. apply adds_only_bind; [apply adds_only_lift|].
      intros [[arr_iso cpos] [[[Zd Yd] Xd] C]]. fold stem out_base.
      do 3 (apply adds_only_bind;
            [apply adds_only_emit; cbn [event_under]; eexists; reflexivity
            |intros _]).
      apply adds_only_bind; [apply adds_only_write_slices|].
      intros _. apply adds_only_ret. }
    destruct (Ha {| done := 0; trace := [] |}) as (evs & E & F).
    subst final. unfold run. rewrite E. exact F.
  - subst final. unfold run, save_isotropic_slices. unfold wbind at 1. unfold wlift.
    destruct (prepare zoom tif z_aspect z_axis c_axis mode)
      as [[[arr_iso cpos] [[[Zd Yd] Xd] C]]|e]; [|discriminate].
    fold stem out_base. unfold wbind, emit, wret.
    match goal with |- context [write_slices ?a ?b ?c ?d ?o ?f ?g ?h ?i ?j ?s] =>
      destruct (write_slices a b c d o f g h i j s) as [s' [u|err]] end;
      cbn [snd]; intros sm [= <-]; reflexivity.
Qed.

Lemma C10_output_directory_stem_witness :
  let final := run (save_isotropic_slices no_zoom masks_212 ["out"] 1
                      (AStr "first") (AStr "none") "labels" false false) in
  Forall (event_under ["out"; "img"] "img_cp_masks") (trace (fst final)) /\
  match nth 3 (trace (fst final)) (Mkdir []) with
  | Imwrite p _ _ _ => p = ["out"; "img"; "xy"; "img_cp_masks_xy_0000.tif"]
  | _ => False
  end.
Proof.
  split; [|reflexivity].
  exact (proj1 (proj2 (proj2 (C10_output_directory_stem no_zoom masks_212 ["out"] 1
    (AStr "first") (AStr "none") "labels" false false)))).
Defined.

(** * Further properties of the code *)

(** ** Axis tokens *)

(** X1.  For an array with at least one dimension, an axis that
    [parse_axis] returns is a valid index: it lies in [[-ndim, ndim)] and
    the canonicaliser's wrap puts it in [[0, ndim)]; and without
    [allow_none] the answer is never [None]. *)
Theorem parse_axis_valid (a : axis_arg) (ndim : nat) (allow_none : bool) (r : option Z) :
  (1 <= ndim)%nat ->
  parse_axis a ndim allow_none = Ok r ->
  match r with
  | Some i => in_bounds i ndim = true /\ 0 <= wrap_axis i ndim < Z.of_nat ndim
  | None => allow_none = true
  end.
Proof.
  intros Hn H.
  assert (Hin : forall i, in_bounds i ndim = true ->
                  in_bounds i ndim = true /\ 0 <= wrap_axis i ndim < Z.of_nat ndim)
    by (intros i Hi; split; [exact Hi | now apply wrap_axis_range]).
  assert (H0 : in_bounds 0 ndim = true) by (apply in_bounds_spec; lia).
  assert (Hl : in_bounds (Z.of_nat ndim - 1) ndim = true) by (apply in_bounds_spec; lia).
  destruct a as [s|i| |]; cbn [parse_axis] in H.
  - destruct (allow_none && str_in (lower (strip s)) ["none"; "no"; "disabled"]) eqn:En.
    + injection H as <-. apply andb_true_iff in En. tauto.
    + destruct (str_in (lower (strip s)) ["first"; "0"]); [injection H as <-; auto|].
      destruct (str_in (lower (strip s)) ["last"; "-1"]); [injection H as <-; auto|].
      destruct (py_int (lower (strip s))) as [i|]; [|discriminate].
      destruct (in_bounds i ndim) eqn:Ei; [|discriminate].
      injection H as <-. auto.
  - destruct (in_bounds i ndim) eqn:Ei; [|discriminate]. injection H as <-. auto.
  - destruct allow_none; [|discriminate]. injection H as <-. reflexivity.
  - discriminate.
Qed.

Lemma parse_axis_valid_witness :
  in_bounds (-2) 3 = true /\ 0 <= wrap_axis (-2) 3 < 3.
Proof.
  apply (parse_axis_valid (AStr "-2") 3 false (Some (-2))); [lia | reflexivity].
Defined.

Lemma is_space_lower (c : ascii) : is_space (lower_char c) = is_space c.
Proof. destruct c as [[] [] [] [] [] [] [] []]; reflexivity. Qed.

Lemma lower_char_idem (c : ascii) : lower_char (lower_char c) = lower_char c.
Proof. destruct c as [[] [] [] [] [] [] [] []]; reflexivity. Qed.

Lemma lower_idem (s : string) : lower (lower s) = lower s.
Proof.
  induction s as [|c s IH]; cbn; [reflexivity|]. now rewrite lower_char_idem, IH.
Qed.

Lemma lstrip_lower (s : string) : lstrip (lower s) = lower (lstrip s).
Proof.
  induction s as [|c s IH]; cbn; [reflexivity|].
  rewrite is_space_lower. destruct (is_space c); [exact IH | reflexivity].
Qed.

Lemma rstrip_lower (s : string) : rstrip (lower s) = lower (rstrip s).
Proof.
  induction s as [|c s IH]; cbn; [reflexivity|].
  rewrite IH, is_space_lower.
  destruct (rstrip s); cbn; [destruct (is_space c)|]; reflexivity.
Qed.

Lemma strip_lower (s : string) : strip (lower s) = lower (strip s).
Proof. unfold strip. now rewrite lstrip_lower, rstrip_lower. Qed.

Lemma lstrip_clean (s : string) :
  match lstrip s with
  | String c _ => is_space c = false
  | EmptyString => True
  end.
Proof.
  induction s as [|c s IH]; cbn; [exact I|].
  destruct (is_space c) eqn:E; [exact IH | exact E].
Qed.

Lemma rstrip_keeps_head (c : ascii) (s : string) :
  is_space c = false -> exists r, rstrip (String c s) = String c r.
Proof.
  intros E. cbn. destruct (rstrip s); [rewrite E|]; eexists; reflexivity.
Qed.

Lemma rstrip_idem (s : string) : rstrip (rstrip s) = rstrip s.
Proof.
  induction s as [|c s IH]; cbn; [reflexivity|].
  destruct (rstrip s) as [|c' r] eqn:E.
  - destruct (is_space c) eqn:Ec; cbn; [reflexivity | now rewrite Ec].
  - cbn [rstrip] in *. rewrite IH. reflexivity.
Qed.

Lemma strip_idem (s : string) : strip (strip s) = strip s.
Proof.
  unfold strip. pose proof (lstrip_clean s) as Hc.
  destruct (lstrip s) as [|c t]; [reflexivity|].
  destruct (rstrip_keeps_head c t Hc) as (r & Er). rewrite Er.
  cbn [lstrip]. rewrite Hc, <- Er. apply rstrip_idem.
Qed.

(** X2.  Axis tokens are read without regard to case and surrounding
    blanks: a token and its stripped, lower-case form resolve alike. *)
Theorem parse_axis_token_normalised (a : string) (ndim : nat) (allow_none : bool) :
  parse_axis (AStr a) ndim allow_none =
  parse_axis (AStr (lower (strip a))) ndim allow_none.
Proof.
  unfold parse_axis. now rewrite strip_lower, strip_idem, lower_idem.
Qed.

Lemma parse_digits_uint (d : Decimal.uint) (acc : Z) :
  0 <= acc ->
  parse_digits (NilEmpty.string_of_uint d) acc true =
    Some (Z.of_nat (Nat.of_uint_acc d (Z.to_nat acc))).
Proof.
  revert acc. induction d as [|d IH|d IH|d IH|d IH|d IH|d IH|d IH|d IH|d IH|d IH];
    intros acc Hacc;
    [cbn; now rewrite Z2Nat.id|..];
    cbn [NilEmpty.string_of_uint parse_digits Nat.of_uint_acc];
    change (digit_of _) with (Some 0) || change (digit_of _) with (Some 1) ||
    change (digit_of _) with (Some 2) || change (digit_of _) with (Some 3) ||
    change (digit_of _) with (Some 4) || change (digit_of _) with (Some 5) ||
    change (digit_of _) with (Some 6) || change (digit_of _) with (Some 7) ||
    change (digit_of _) with (Some 8) || change (digit_of _) with (Some 9);
    cbv iota beta; rewrite IH by lia; do 3 f_equal;
    rewrite Nat.tail_mul_spec; lia.
Qed.

Lemma parse_digits_start (d : Decimal.uint) (acc : Z) :
  d <> Decimal.Nil ->
  parse_digits (NilEmpty.string_of_uint d) acc false =
  parse_digits (NilEmpty.string_of_uint d) acc true.
Proof. destruct d; [congruence|..]; reflexivity. Qed.

Lemma py_int_uint (d : Decimal.uint) :
  py_int (NilZero.string_of_uint d) = Some (Z.of_nat (Nat.of_uint d)).
Proof.
  destruct d eqn:E; [reflexivity|..]; rewrite <- E;
    (assert (Hd : d <> Decimal.Nil) by (subst d; discriminate));
    (transitivity (parse_digits (NilEmpty.string_of_uint d) 0 false);
     [subst d; reflexivity|]);
    rewrite (parse_digits_start d 0 Hd), parse_digits_uint by lia; reflexivity.
Qed.

(** Reading back a printed number. *)
Lemma py_int_str_of_nat (n : nat) : py_int (str_of_nat n) = Some (Z.of_nat n).
Proof.
  unfold str_of_nat. now rewrite py_int_uint, DecimalNat.Unsigned.of_to.
Qed.

Lemma digits_plain (d : Decimal.uint) :
  let s := NilEmpty.string_of_uint d in
  lower s = s /\ rstrip s = s /\
  match s with String c _ => is_space c = false | EmptyString => True end.
Proof.
  induction d as [|d IH|d IH|d IH|d IH|d IH|d IH|d IH|d IH|d IH|d IH];
    [cbn; auto|..];
    cbv zeta in *; destruct IH as (Hl & Hr & _);
    cbn [NilEmpty.string_of_uint lower rstrip]; rewrite Hl, Hr;
    (split; [reflexivity|]); (split; [|reflexivity]);
    destruct (NilEmpty.string_of_uint d); reflexivity.
Qed.

Lemma str_of_nat_plain (n : nat) : lower (strip (str_of_nat n)) = str_of_nat n.
Proof.
  unfold str_of_nat, NilZero.string_of_uint.
  destruct (Nat.to_uint n) eqn:E; [reflexivity|..]; rewrite <- E;
    destruct (digits_plain (Nat.to_uint n)) as (Hl & Hr & Hc); cbv zeta in *;
    unfold strip;
    (assert (Hs : lstrip (NilEmpty.string_of_uint (Nat.to_uint n))
                  = NilEmpty.string_of_uint (Nat.to_uint n))
      by (destruct (NilEmpty.string_of_uint (Nat.to_uint n)); [reflexivity|];
          cbn; now rewrite Hc));
    now rewrite Hs, Hr, Hl.
Qed.

Lemma str_in_cases (s : string) (l : list string) :
  str_in s l = true -> In s l.
Proof.
  unfold str_in. intros H. apply existsb_exists in H as (x & Hx & E).
  apply String.eqb_eq in E. now subst.
Qed.

Lemma parse_axis_digits (k ndim : nat) (allow_none : bool) :
  (1 <= ndim)%nat ->
  parse_axis (AStr (str_of_nat k)) ndim allow_none =
    if (k <? ndim)%nat then Ok (Some (Z.of_nat k)) else Err InvalidAxisSpec.
Proof.
  intros Hn. unfold parse_axis. rewrite str_of_nat_plain.
  pose proof (py_int_str_of_nat k) as Hp.
  destruct (str_in (str_of_nat k) ["none"; "no"; "disabled"]) eqn:E1.
  { apply str_in_cases in E1. cbn in E1.
    destruct E1 as [E | [E | [E | []]]]; rewrite <- E in Hp; discriminate. }
  rewrite andb_false_r.
  destruct (str_in (str_of_nat k) ["first"; "0"]) eqn:E2.
  { apply str_in_cases in E2. cbn in E2.
    destruct E2 as [E | [E | []]]; rewrite <- E in Hp; [discriminate|].
    injection Hp as Hp. assert (k = 0)%nat as -> by lia.
    destruct (Nat.ltb_spec 0 ndim); [reflexivity | lia]. }
  destruct (str_in (str_of_nat k) ["last"; "-1"]) eqn:E3.
  { apply str_in_cases in E3. cbn in E3.
    destruct E3 as [E | [E | []]]; rewrite <- E in Hp; [discriminate|].
    injection Hp as Hp. lia. }
  rewrite Hp. unfold in_bounds.
  destruct (Nat.ltb_spec k ndim).
  - assert (H1 : (- Z.of_nat ndim <=? Z.of_nat k) = true) by (apply Z.leb_le; lia).
    assert (H2 : (Z.of_nat k <? Z.of_nat ndim) = true) by (apply Z.ltb_lt; lia).
    now rewrite H1, H2.
  - assert (H2 : (Z.of_nat k <? Z.of_nat ndim) = false) by (apply Z.ltb_ge; lia).
    now rewrite H2, andb_false_r.
Qed.

(** X3.  Printing and parsing agree: [int] reads the decimal text of a
    number [k] (as [str(k)] builds it) back as [k], and for an array with
    at least one dimension that text resolves to the axis [k] itself when
    [k < ndim] and is refused with [InvalidAxisSpec] otherwise. *)
Theorem parse_axis_decimal (k ndim : nat) (allow_none : bool) :
  (1 <= ndim)%nat ->
  py_int (str_of_nat k) = Some (Z.of_nat k) /\
  parse_axis (AStr (str_of_nat k)) ndim allow_none =
    if (k <? ndim)%nat then Ok (Some (Z.of_nat k)) else Err InvalidAxisSpec.
Proof.
  intros Hn. split.
  - apply py_int_str_of_nat.
  - apply parse_axis_digits. exact Hn.
Qed.

Lemma parse_axis_decimal_witness :
  parse_axis (AStr (str_of_nat 12)) 13 false = Ok (Some 12) /\
  parse_axis (AStr (str_of_nat 4)) 4 true = Err InvalidAxisSpec.
Proof.
  split.
  - exact (proj2 (parse_axis_decimal 12 13 false ltac:(lia))).
  - exact (proj2 (parse_axis_decimal 4 4 true ltac:(lia))).
Defined.

(** ** Canonicalisation: outcomes *)

Lemma small_axis3 (z : Z) :
  in_bounds z 3 = true ->
  wrap_axis z 3 = 0 \/ wrap_axis z 3 = 1 \/ wrap_axis z 3 = 2.
Proof. intros H. apply wrap_axis_range in H. lia. Qed.

Lemma small_axis4 (z : Z) :
  in_bounds z 4 = true ->
  wrap_axis z 4 = 0 \/ wrap_axis z 4 = 1 \/ wrap_axis z 4 = 2 \/ wrap_axis z 4 = 3.
Proof. intros H. apply wrap_axis_range in H. lia. Qed.



Ltac small_nat n :=
  destruct n as [|[|[|[|n]]]]; try lia.

(** X5.  Without a channel axis, a 3-D array and a valid Z axis always
    canonicalise: the output has the Z axis first and the two other axes
    [y < x] after it in that order, and the element at [(iz, iy, ix)] is
    the input element with these coordinates along [za], [y] and [x]. *)
Theorem canonicalize_3d_layout (arr : ndarray) (z_axis : Z) (y x : nat) :
  ndim arr = 3%nat -> in_bounds z_axis 3 = true ->
  let za := Z.to_nat (wrap_axis z_axis 3) in
  let dim := fun k => nth k (shape arr) 0%nat in
  (y < x < 3)%nat -> y <> za -> x <> za ->
  exists out,
    canonicalize_preserve_c_side arr z_axis None = Ok (out, None) /\
    shape out = [dim za; dim y; dim x] /\
    forall iz iy ix : nat,
      exists src,
        item out [iz; iy; ix] = item arr src /\ List.length src = 3%nat /\
        nth za src 0%nat = iz /\ nth y src 0%nat = iy /\ nth x src 0%nat = ix.
Proof.
  intros Hn Hz za dim Hyx Hy Hx. subst za dim.
  unfold canonicalize_preserve_c_side, canonical_perm.
  destruct arr as [sh it]. unfold ndim in *. cbn [shape] in *. rewrite Hn.
  destruct sh as [|d0 [|d1 [|d2 [|]]]]; try discriminate Hn.
  destruct (small_axis3 _ Hz) as [Ez | [Ez | Ez]]; rewrite Ez in *;
    cbn in Hy, Hx; small_nat y; small_nat x;
    (eexists; split; [vm_compute; reflexivity|]; split; [reflexivity|];
     intros iz iy ix; eexists; split; [reflexivity|]; repeat split; reflexivity).
Qed.

Lemma canonicalize_3d_layout_witness :
  exists out,
    canonicalize_preserve_c_side volume_345 1 None = Ok (out, None) /\
    shape out = [4; 3; 5]%nat.
Proof.
  destruct (canonicalize_3d_layout volume_345 1 0 2 eq_refl eq_refl)
    as (out & Ho & Hs & _); cbn; try lia.
  exists out. split; [exact Ho | exact Hs].
Defined.

(** X6.  With a channel axis, a 4-D array canonicalises to [(Z, C, Y, X)]
    when the channel precedes the two remaining axes [y < x], and to
    [(Z, Y, X, C)] when it follows them; in both cases the output element
    is the input element with the same coordinates along each axis. *)
Theorem canonicalize_4d_layout (arr : ndarray) (z_axis c_axis : Z) (y x : nat) :
  ndim arr = 4%nat -> in_bounds z_axis 4 = true -> in_bounds c_axis 4 = true ->
  let za := Z.to_nat (wrap_axis z_axis 4) in
  let ca := Z.to_nat (wrap_axis c_axis 4) in
  let dim := fun k => nth k (shape arr) 0%nat in
  (y < x < 4)%nat -> y <> za -> x <> za -> za <> ca ->
  ((ca < y)%nat ->
   exists out,
     canonicalize_preserve_c_side arr z_axis (Some c_axis) = Ok (out, Some Before) /\
     shape out = [dim za; dim ca; dim y; dim x] /\
     forall iz ic iy ix : nat,
       exists src,
         item out [iz; ic; iy; ix] = item arr src /\ List.length src = 4%nat /\
         nth za src 0%nat = iz /\ nth ca src 0%nat = ic /\
         nth y src 0%nat = iy /\ nth x src 0%nat = ix) /\
  ((x < ca)%nat ->
   exists out,
     canonicalize_preserve_c_side arr z_axis (Some c_axis) = Ok (out, Some After) /\
     shape out = [dim za; dim y; dim x; dim ca] /\
     forall iz iy ix ic : nat,
       exists src,
         item out [iz; iy; ix; ic] = item arr src /\ List.length src = 4%nat /\
         nth za src 0%nat = iz /\ nth ca src 0%nat = ic /\
         nth y src 0%nat = iy /\ nth x src 0%nat = ix).
Proof.
  intros Hn Hz Hc za ca dim Hyx Hy Hx Hzc. subst za ca dim.
  unfold canonicalize_preserve_c_side, canonical_perm.
  destruct arr as [sh it]. unfold ndim in *. cbn [shape] in *. rewrite Hn.
  destruct sh as [|d0 [|d1 [|d2 [|d3 [|]]]]]; try discriminate Hn.
  destruct (small_axis4 _ Hz) as [Ez | [Ez | [Ez | Ez]]];
    destruct (small_axis4 _ Hc) as [Ec | [Ec | [Ec | Ec]]];
    rewrite Ez, Ec in *; cbn in Hy, Hx, Hzc; try congruence;
    small_nat y; small_nat x;
    (split; intros Hlt; cbn in Hlt; try lia;
     eexists; split; [vm_compute; reflexivity|]; split; [reflexivity|];
     intros i1 i2 i3 i4; eexists; split; [reflexivity|]; repeat split; reflexivity).
Qed.

Lemma canonicalize_4d_layout_witness :
  exists out,
    canonicalize_preserve_c_side (of_flat [7; 9; 11; 2]%nat []) 0 (Some (-1))
      = Ok (out, Some After) /\
    shape out = [7; 9; 11; 2]%nat.
Proof.
  destruct (canonicalize_4d_layout (of_flat [7; 9; 11; 2]%nat []) 0 (-1) 1 2
              eq_refl eq_refl eq_refl) as (_ & H); cbn; try lia.
  destruct H as (out & Ho & Hs & _); [cbn; lia|].
  exists out. split; [exact Ho | exact Hs].
Defined.

Lemma canonicalize_ndim (arr : ndarray) (z_axis : Z) (c_axis : option Z)
    (out : ndarray) (cpos : option cpos_t) :
  canonicalize_preserve_c_side arr z_axis c_axis = Ok (out, cpos) ->
  ndim out = ndim arr /\
  match cpos with
  | None => c_axis = None /\ ndim arr = 3%nat
  | Some _ => c_axis <> None /\ ndim arr = 4%nat
  end.
Proof.
  intros H. unfold canonicalize_preserve_c_side in H.
  destruct (canonical_perm (ndim arr) z_axis c_axis) as [[perm cp]|] eqn:Hperm;
    [|discriminate].
  cbn [rbind] in H.
  destruct (transpose arr perm) as [t|] eqn:Ht; [|discriminate].
  cbn [rbind] in H. injection H as -> ->.
  destruct (transpose_inv _ _ _ Ht) as (p & Hp & Hpm & Hsh & _).
  assert (Hlp : List.length p = ndim arr)
    by (rewrite (Permutation_length Hpm); apply length_seq).
  assert (Hlen : List.length perm = ndim arr)
    by (rewrite (Forall2_length (mapM_normalize_inv _ _ _ Hp)); exact Hlp).
  split.
  - unfold ndim at 1. rewrite Hsh, length_map. exact Hlp.
  - destruct (canonical_perm_order _ _ _ _ _ Hperm Hlen) as (_ & Hc & _).
    destruct c_axis as [c|].
    + destruct Hc as (E & cp & -> & _). split; [discriminate | exact E].
    + destruct Hc as (E & -> & _). split; [reflexivity | exact E].
Qed.

(** X7.  A canonical volume is a fixed point: canonicalising the output
    again, with Z at axis 0 and the channel at the place its side names,
    gives the same side, the same shape and the same elements. *)
Theorem canonicalize_idempotent (arr : ndarray) (z_axis : Z) (c_axis : option Z)
    (out : ndarray) (cpos : option cpos_t) :
  canonicalize_preserve_c_side arr z_axis c_axis = Ok (out, cpos) ->
  exists out',
    canonicalize_preserve_c_side out 0 (canonical_c_axis cpos) = Ok (out', cpos) /\
    shape out' = shape out /\
    elements out' = elements out.
Proof.
  intros H. destruct (canonicalize_ndim _ _ _ _ _ H) as (Hn & Hc).
  rewrite <- Hn in Hc. clear H Hn.
  destruct out as [sh it]. unfold ndim in Hc. cbn [shape] in Hc.
  unfold canonicalize_preserve_c_side, canonical_perm, ndim. cbn [shape].
  destruct cpos as [[|]|]; destruct Hc as (_ & Hl);
    rewrite Hl;
    destruct sh as [|d0 [|d1 [|d2 sh]]]; try discriminate Hl;
    [destruct sh as [|d3 [|]]; try discriminate Hl ..
    |destruct sh; try discriminate Hl];
    (eexists; split; [vm_compute; reflexivity|]; split; [reflexivity|];
     unfold elements; cbn [shape item]; apply map_ext_in; intros ix Hin;
     apply in_indices in Hin;
     repeat match goal with
            | F : Forall2 _ _ (_ :: _) |- _ => inversion F; subst; clear F
            | F : Forall2 _ _ [] |- _ => inversion F; subst; clear F
            end; reflexivity).
Qed.

Lemma canonicalize_idempotent_witness :
  exists out out',
    canonicalize_preserve_c_side volume_345 1 None = Ok (out, None) /\
    canonicalize_preserve_c_side out 0 None = Ok (out', None) /\
    elements out' = elements out.
Proof.
  eexists.
  destruct (canonicalize_idempotent volume_345 1 None _ None eq_refl)
    as (out' & H1 & _ & H2).
  exists out'. split; [reflexivity|]. split; [exact H1 | exact H2].
Defined.

(** ** The planes of a resampled volume *)

(** What a resampling returns once the target size is known. *)
Lemma resample_result (zoom : zoom_t) (arr : ndarray) (Zs : nat) (rest : list nat)
    (z_aspect a : Q) (n : Z) (mode : string) :
  shape arr = Zs :: rest -> (1 <= Zs)%nat ->
  (mode = "image" -> forall f, zoom arr f = None) ->
  py_float z_aspect = Ok a -> new_z Zs a = Ok n ->
  exists out,
    resample_z_isotropic zoom arr z_aspect mode = Ok out /\
    shape out = Z.to_nat n :: rest /\
    planes_from out arr.
Proof.
  intros Hs Hz Hzoom Ea En.
  destruct (resample_cases zoom arr Zs rest z_aspect mode Hs Hz Hzoom)
    as [(_ & [Hw | (a' & Ea' & En')]) | (a' & n' & out & Ea' & En' & Ho & Hsh & Hp & _)].
  - congruence.
  - rewrite Ea in Ea'. injection Ea' as <-. congruence.
  - rewrite Ea in Ea'. injection Ea' as <-. rewrite En in En'. injection En' as <-.
    exists out. auto.
Qed.

(** X8.  The number of planes.  In labels mode, and in image mode without
    a working linear engine, a resampling of a volume with a non-empty Z
    axis whose target size [newZ] is in range returns a volume of exactly
    [newZ >= 1] planes, each of them a plane of the input, with the other
    dimensions unchanged; and when the arithmetic of the target size
    overflows, the call raises [OverflowError]. *)
Theorem resample_plane_count
    (zoom : zoom_t) (arr : ndarray) (Zs : nat) (rest : list nat)
    (z_aspect : Q) (mode : string) :
  shape arr = Zs :: rest -> (1 <= Zs)%nat ->
  (mode = "image" -> forall f, zoom arr f = None) ->
  (forall a n, py_float z_aspect = Ok a -> new_z Zs a = Ok n ->
     1 <= n /\
     exists out,
       resample_z_isotropic zoom arr z_aspect mode = Ok out /\
       shape out = Z.to_nat n :: rest /\
       planes_from out arr) /\
  (py_float z_aspect = Err OverflowError \/
   (exists a, py_float z_aspect = Ok a /\ new_z Zs a = Err OverflowError) ->
   resample_z_isotropic zoom arr z_aspect mode = Err OverflowError).
Proof.
  intros Hs Hz Hzoom. split.
  - intros a n Ea En. split; [exact (new_z_positive _ _ _ En)|].
    exact (resample_result zoom arr Zs rest z_aspect a n mode Hs Hz Hzoom Ea En).
  - exact (resample_overflow zoom arr Zs rest z_aspect mode Hs).
Qed.

Lemma resample_plane_count_witness :
  1 <= 8 /\
  exists out,
    resample_z_isotropic no_zoom volume_345 (5 # 2) "labels" = Ok out /\
    shape out = [8; 4; 5]%nat /\
    planes_from out volume_345.
Proof.
  exact (proj1 (resample_plane_count no_zoom volume_345 3 [4; 5]%nat (5 # 2) "labels"
                  eq_refl ltac:(lia) ltac:(discriminate))
           (5 # 2) 8 ltac:(vm_compute; reflexivity) ltac:(vm_compute; reflexivity)).
Defined.

(** X9.  A whole aspect [m >= 1] multiplies the number of planes by [m]
    (the self test's [3 * 2 = 6]), as long as the product is within the 53
    bits a float holds exactly. *)
Theorem resample_integer_aspect
    (zoom : zoom_t) (arr : ndarray) (Zs : nat) (rest : list nat)
    (m : nat) (mode : string) :
  shape arr = Zs :: rest -> (1 <= Zs)%nat -> (1 <= m)%nat ->
  Z.of_nat (m * Zs) <= 2 ^ 53 ->
  (mode = "image" -> forall f, zoom arr f = None) ->
  exists out,
    resample_z_isotropic zoom arr (inject_Z (Z.of_nat m)) mode = Ok out /\
    shape out = (m * Zs)%nat :: rest.
Proof.
  intros Hs Hz Hm Hb Hzoom.
  destruct (rounded_product_whole Zs (Z.of_nat m) Hz) as (Ea & Er); [lia | lia|].
  apply new_z_of_product in Er.
  destruct (resample_result zoom arr Zs rest _ _ _ mode Hs Hz Hzoom Ea Er)
    as (out & Ho & Hsh & _).
  exists out. split; [exact Ho|]. rewrite Hsh. f_equal. lia.
Qed.

Lemma resample_integer_aspect_witness :
  exists out,
    resample_z_isotropic no_zoom volume_345 (inject_Z 2) "labels" = Ok out /\
    shape out = [6; 4; 5]%nat.
Proof.
  exact (resample_integer_aspect no_zoom volume_345 3 [4; 5]%nat 2 "labels"
           eq_refl ltac:(lia) ltac:(lia) ltac:(vm_compute; discriminate)
           ltac:(discriminate)).
Defined.

(** ** The source planes of nearest-neighbour resampling *)












(** ** Tiles *)

(** X13.  The axes tag written with a tile describes the tile: read with
    the dimensions [Z, Y, X, C] of the resampled volume, the tag gives the
    tile's shape, in each direction and for each channel layout; the
    planar configuration is absent without channels and ["separate"]
    exactly for channels before XY. *)
Theorem tile_shape_matches_axes (arr_iso : ndarray) (cpos : option cpos_t)
    (Zd Yd Xd : nat) (C : option nat) (i : nat) :
  unpack_shape arr_iso cpos = Ok (Zd, Yd, Xd, C) ->
  let Cd := match C with Some c => c | None => 0%nat end in
  let ok := fun t : ndarray * option string * string =>
    let '(tile, pc, axes) := t in
    shape tile = tag_map Zd Yd Xd Cd axes /\
    pc = match C, cpos with
         | None, _ => None
         | Some _, Some Before => Some "separate"
         | Some _, _ => Some "contig"
         end in
  ok (xy_tile arr_iso cpos C i) /\
  ok (zx_tile arr_iso cpos C i) /\
  ok (zy_tile arr_iso cpos C i).
Proof.
  unfold unpack_shape, xy_tile, zx_tile, zy_tile, fix_axis, swapaxes01.
  intros H. cbn [shape].
  destruct (shape arr_iso) as [|d0 [|d1 [|d2 [|d3 [|d4 sh]]]]];
    try discriminate H;
    destruct cpos as [[|]|]; injection H as <- <- <- <-;
    repeat split; reflexivity.
Qed.

Lemma tile_shape_matches_axes_witness :
  shape (fst (fst (zx_tile (of_flat [8; 3; 4; 6]%nat []) (Some Before) (Some 3%nat) 0)))
    = [3; 8; 6]%nat.
Proof.
  exact (proj1 (proj1 (proj2 (tile_shape_matches_axes
    (of_flat [8; 3; 4; 6]%nat []) (Some Before) 8 4 6 (Some 3%nat) 0 eq_refl)))).
Defined.

(** X14.  What a tile holds: the element a tile has at the coordinates its
    axes tag names is the element of the volume at the same coordinates,
    with the tile's own number [i] along the axis the tile cuts (Z for XY
    tiles, Y for ZX tiles, X for ZY tiles). *)
Theorem tile_contents (arr_iso : ndarray) (cpos : option cpos_t) (C : option nat)
    (i z y x c : nat) :
  let at_tag := fun t : ndarray * option string * string =>
    item (fst (fst t)) (tag_map z y x c (snd t)) in
  at_tag (xy_tile arr_iso cpos C i) = item arr_iso (canon_index cpos C i y x c) /\
  at_tag (zx_tile arr_iso cpos C i) = item arr_iso (canon_index cpos C z i x c) /\
  at_tag (zy_tile arr_iso cpos C i) = item arr_iso (canon_index cpos C z y i c).
Proof.
  unfold xy_tile, zx_tile, zy_tile, canon_index.
  destruct C; destruct cpos as [[|]|]; repeat split; reflexivity.
Qed.

(** ** Exports that fail, and exports of background *)

Lemma parse_axis_error (a : axis_arg) (ndim : nat) (allow_none : bool) (e : error) :
  parse_axis a ndim allow_none = Err e -> e = InvalidAxisSpec.
Proof.
  destruct a as [s|i| |]; cbn [parse_axis];
    repeat match goal with
           | |- context [if ?b then _ else _] => destruct b
           | |- context [match py_int ?s with _ => _ end] => destruct (py_int s)
           end; congruence.
Qed.

Lemma parse_axis_none (a : axis_arg) (ndim : nat) (allow_none : bool) :
  parse_axis a ndim allow_none = Ok None -> allow_none = true.
Proof.
  destruct a as [s|i| |]; cbn [parse_axis]; destruct allow_none; try reflexivity;
    cbn [andb];
    repeat match goal with
           | |- context [if ?b then _ else _] => destruct b
           | |- context [match py_int ?s with _ => _ end] => destruct (py_int s)
           end; congruence.
Qed.

(** X15.  Nothing is created for an input that is refused: when the axes,
    the canonicalisation or the resampling fail, the export ends with that
    error before any directory is made, any tile written or any progress
    reported.  This is the case of every array that is neither 3-D nor
    4-D, which fails with [InvalidAxisSpec] or [DimensionMismatch]. *)
Theorem refused_input_leaves_no_trace (zoom : zoom_t) (tif : tif_input) (out_dir : path)
    (z_aspect : Q) (z_axis c_axis : axis_arg) (mode : string)
    (skip_empty progress_cb : bool) :
  let final := run (save_isotropic_slices zoom tif out_dir z_aspect z_axis c_axis mode
                      skip_empty progress_cb) in
  (forall e, prepare zoom tif z_aspect z_axis c_axis mode = Err e ->
     final = ({| done := 0; trace := [] |}, Err e)) /\
  (ndim (pixels tif) <> 3%nat -> ndim (pixels tif) <> 4%nat ->
   exists e, final = ({| done := 0; trace := [] |}, Err e) /\
             (e = InvalidAxisSpec \/ e = DimensionMismatch)).
Proof.
  intros final.
  assert (Hfail : forall e, prepare zoom tif z_aspect z_axis c_axis mode = Err e ->
                            final = ({| done := 0; trace := [] |}, Err e)).
  { intros e He. subst final.
    unfold run, save_isotropic_slices, wbind, wlift. now rewrite He. }
  split; [exact Hfail|].
  intros H3 H4.
  assert (Hp : exists e, prepare zoom tif z_aspect z_axis c_axis mode = Err e /\
                         (e = InvalidAxisSpec \/ e = DimensionMismatch)).
  { unfold prepare.
    destruct (parse_axis z_axis (ndim (pixels tif)) false) as [za|e] eqn:Ez; cbn [rbind].
    2:{ exists e. split; [reflexivity|]. left. exact (parse_axis_error _ _ _ _ Ez). }
    destruct (parse_axis c_axis (ndim (pixels tif)) true) as [ca|e] eqn:Ec; cbn [rbind].
    2:{ exists e. split; [reflexivity|]. left. exact (parse_axis_error _ _ _ _ Ec). }
    destruct za as [za|]; [|apply parse_axis_none in Ez; discriminate].
    cbn [rbind]. unfold canonicalize_preserve_c_side, canonical_perm.
    apply Nat.eqb_neq in H3, H4. destruct ca as [ca|]; rewrite ?H3, ?H4; cbn.
    - exists DimensionMismatch. auto.
    - exists DimensionMismatch. auto. }
  destruct Hp as (e & He & Hk). exists e. split; [exact (Hfail e He) | exact Hk].
Qed.

Lemma refused_input_leaves_no_trace_witness :
  run (save_isotropic_slices no_zoom
         {| path_stem := Some "flat"; pixels := of_flat [4; 5]%nat [] |}
         ["out"] 1 (AStr "first") (AStr "none") "labels" false true)
    = ({| done := 0; trace := [] |}, Err DimensionMismatch).
Proof.
  exact (proj1 (refused_input_leaves_no_trace no_zoom
    {| path_stem := Some "flat"; pixels := of_flat [4; 5]%nat [] |}
    ["out"] 1 (AStr "first") (AStr "none") "labels" false true)
    DimensionMismatch eq_refl).
Defined.

Lemma np_max_background (t : ndarray) :
  Forall (lt 0%nat) (shape t) -> (forall ix, item t ix = 0) -> np_max t = Ok 0.
Proof.
  intros Hpos Hz. unfold np_max, elements.
  pose proof (indices_nonempty _ Hpos) as Hne.
  assert (Hall : forall l : list (list nat), Forall (fun v => v = 0) (map (item t) l)).
  { intros l. apply Forall_forall. intros v Hv.
    apply in_map_iff in Hv as (ix & <- & _). apply Hz. }
  specialize (Hall (indices (shape t))).
  destruct (indices (shape t)) as [|ix r]; [congruence|].
  cbn [map] in *. inversion Hall as [|v l Hv Hr]; subst. rewrite Hv. f_equal.
  clear -Hr. induction Hr as [|v l -> _ IH]; cbn; [reflexivity | exact IH].
Qed.

Lemma canonicalize_background (arr : ndarray) (z_axis : Z) (c_axis : option Z)
    (out : ndarray) (cpos : option cpos_t) :
  canonicalize_preserve_c_side arr z_axis c_axis = Ok (out, cpos) ->
  (forall ix, item arr ix = 0) -> forall ix, item out ix = 0.
Proof.
  intros H Hz ix. unfold canonicalize_preserve_c_side in H.
  destruct (canonical_perm (ndim arr) z_axis c_axis) as [[perm cp]|]; [|discriminate].
  cbn [rbind] in H.
  destruct (transpose arr perm) as [t|] eqn:Ht; [|discriminate].
  cbn [rbind] in H. injection H as -> ->.
  destruct (transpose_inv _ _ _ Ht) as (p & _ & _ & _ & Hit).
  rewrite Hit. apply Hz.
Qed.

Lemma resample_background (zoom : zoom_t) (arr out : ndarray) (z_aspect : Q)
    (mode : string) :
  resample_z_isotropic zoom arr z_aspect mode = Ok out ->
  mode <> "image" ->
  (forall ix, item arr ix = 0) -> forall ix, item out ix = 0.
Proof.
  intros H Hm Hz ix. unfold resample_z_isotropic in H.
  destruct (py_float z_aspect) as [a|]; cbn [rbind] in H; [|discriminate].
  destruct (shape arr) as [|Zs rest] eqn:Hs; [discriminate|].
  destruct (new_z Zs a) as [n|]; cbn [rbind] in H; [|discriminate].
  destruct (n =? Z.of_nat Zs); [injection H as <-; apply Hz|].
  apply String.eqb_neq in Hm. rewrite Hm in H.
  unfold nearest_z, take0 in H. rewrite Hs in H.
  match type of H with context [if ?b then _ else _] => destruct b end;
    [|discriminate].
  injection H as <-. cbn [item]. destruct ix as [|k r]; [reflexivity | apply Hz].
Qed.

(** X16.  An all-background label stack exported with [skip_empty] writes
    no tile at all, and still completes and counts every tile: the
    directories are made, [Z + Y + X] tiles are reported, nothing is
    handed to the sink. *)
Theorem background_stack_writes_nothing (zoom : zoom_t) (tif : tif_input)
    (out_dir : path) (z_aspect : Q) (z_axis c_axis : axis_arg) (mode : string)
    (progress_cb : bool)
    (arr_iso : ndarray) (cpos : option cpos_t) (Zd Yd Xd : nat) (C : option nat) :
  prepare zoom tif z_aspect z_axis c_axis mode = Ok (arr_iso, cpos, (Zd, Yd, Xd, C)) ->
  mode <> "image" ->
  Forall (lt 0%nat) (shape arr_iso) ->
  (forall ix, item (pixels tif) ix = 0) ->
  let final := run (save_isotropic_slices zoom tif out_dir z_aspect z_axis c_axis mode
                      true progress_cb) in
  (exists sm, snd final = Ok sm) /\
  writes (trace (fst final)) = [] /\
  done (fst final) = (Zd + Yd + Xd)%nat /\
  List.length (progress_calls (trace (fst final))) =
    (if progress_cb then Zd + Yd + Xd else 0)%nat.
Proof.
  intros Hprep Hm Hpos Hz final.
  assert (Hiso : forall ix, item arr_iso ix = 0).
  { unfold prepare in Hprep.
    destruct (parse_axis z_axis (ndim (pixels tif)) false) as [za|];
      cbn [rbind] in Hprep; [|discriminate].
    destruct (parse_axis c_axis (ndim (pixels tif)) true) as [ca|];
      cbn [rbind] in Hprep; [|discriminate].
    destruct za as [za|]; cbn [rbind] in Hprep; [|discriminate].
    destruct (canonicalize_preserve_c_side (pixels tif) za ca) as [[arr_can cp]|] eqn:Ec;
      cbn [rbind] in Hprep; [|discriminate].
    destruct (resample_z_isotropic zoom arr_can z_aspect mode) as [a|] eqn:Er;
      cbn [rbind] in Hprep; [|discriminate].
    destruct (unpack_shape a cp) as [d|]; cbn [rbind] in Hprep; [|discriminate].
    injection Hprep as <- <- _.
    apply (resample_background _ _ _ _ _ Er Hm).
    exact (canonicalize_background _ _ _ _ _ Ec Hz). }
  assert (Hskip : forall tile_of : nat -> ndarray * option string * string,
            (forall i, Forall (lt 0%nat) (shape (fst (fst (tile_of i)))) /\
                       forall ix, item (fst (fst (tile_of i))) ix = 0) ->
            forall l, filter (fun i => negb (skipped true tile_of i)) l = []).
  { intros tile_of Ht l. induction l as [|i r IH]; [reflexivity|].
    cbn [filter]. unfold skipped at 1.
    destruct (Ht i) as (Hp & Hi). rewrite (np_max_background _ Hp Hi). cbn. exact IH. }
  assert (Hxy : forall i, Forall (lt 0%nat) (shape (fst (fst (xy_tile arr_iso cpos C i)))) /\
                          forall ix, item (fst (fst (xy_tile arr_iso cpos C i))) ix = 0).
  { intros i. unfold xy_tile. destruct C; [destruct cpos as [[|]|]|]; cbn [fst];
      (split; [auto using fix_axis_positive, swapaxes01_positive
              |intros ix; cbn; repeat (destruct ix as [|? ix]; try apply Hiso)]). }
  assert (Hzx : forall i, Forall (lt 0%nat) (shape (fst (fst (zx_tile arr_iso cpos C i)))) /\
                          forall ix, item (fst (fst (zx_tile arr_iso cpos C i))) ix = 0).
  { intros i. unfold zx_tile. destruct C; [destruct cpos as [[|]|]|]; cbn [fst];
      (split; [auto using fix_axis_positive, swapaxes01_positive
              |intros ix; cbn; repeat (destruct ix as [|? ix]; try apply Hiso)]). }
  assert (Hzy : forall i, Forall (lt 0%nat) (shape (fst (fst (zy_tile arr_iso cpos C i)))) /\
                          forall ix, item (fst (fst (zy_tile arr_iso cpos C i))) ix = 0).
  { intros i. unfold zy_tile. destruct C; [destruct cpos as [[|]|]|]; cbn [fst];
      (split; [auto using fix_axis_positive, swapaxes01_positive
              |intros ix; cbn; repeat (destruct ix as [|? ix]; try apply Hiso)]). }
  destruct (save_run zoom tif out_dir z_aspect z_axis c_axis mode true progress_cb
              arr_iso cpos Zd Yd Xd C Hprep (fun _ => Hpos)) as (sm & Hrun & _).
  cbv zeta in Hrun. subst final. rewrite Hrun. cbn [fst snd trace done].
  split; [exists sm; reflexivity|].
  split; [|split; [reflexivity|]].
  - rewrite !writes_app, !writes_loop.
    rewrite (Hskip _ Hxy), (Hskip _ Hzx), (Hskip _ Hzy). reflexivity.
  - destruct progress_cb.
    + rewrite !progress_calls_app, !progress_loop by reflexivity.
      cbn [progress_calls flat_map List.app].
      rewrite !length_app, !length_map, !length_seq. lia.
    + assert (Hno : forall dir tile_of n d l,
                progress_calls (loop_events (stem_of tif)
                  (path_div out_dir (image_stem mode (stem_of tif)))
                  true false Zd Yd Xd dir tile_of n d l) = []).
      { intros dir tile_of n d l. revert d.
        induction l as [|i r IH]; intros d; [reflexivity|].
        cbn [loop_events]. rewrite !progress_calls_app, IH.
        destruct (skipped true tile_of i); [reflexivity|].
        unfold imwrite_of. destruct (tile_of i) as [[t pc] ax]. reflexivity. }
      rewrite !progress_calls_app, !Hno. reflexivity.
Qed.

Lemma background_stack_writes_nothing_witness :
  let final := run (save_isotropic_slices no_zoom background_212 ["out"] 1
                      (AStr "first") (AStr "none") "labels" true true) in
  writes (trace (fst final)) = [] /\ done (fst final) = 5%nat.
Proof.
  assert (H := background_stack_writes_nothing no_zoom background_212 ["out"] 1
                 (AStr "first") (AStr "none") "labels" true
                 _ None 2 1 2 None eq_refl ltac:(discriminate)
                 ltac:(repeat constructor)).
  cbv zeta in H. destruct H as (_ & Hw & Hd & _).
  - intros ix. change (nth (offset [2; 1; 2]%nat ix) [] 0 = 0).
    destruct (offset [2; 1; 2]%nat ix); reflexivity.
  - split; [exact Hw | exact Hd].
Defined.

(** ** File names *)

Lemma append_cancel_l (a x y : string) : (a ++ x = a ++ y)%string -> x = y.
Proof. induction a as [|c a IH]; cbn; intros H; [exact H | injection H as H; auto]. Qed.

Lemma append_cancel_r (s x y : string) : (x ++ s = y ++ s)%string -> x = y.
Proof.
  intros H.
  assert (Hl : String.length x = String.length y).
  { apply (f_equal String.length) in H. rewrite !length_append in H. lia. }
  revert y H Hl. induction x as [|c x IH]; intros [|c' y] H Hl; cbn in Hl;
    try discriminate; [reflexivity|].
  cbn in H. injection H as -> H. f_equal. apply IH; [exact H | lia].
Qed.

Lemma parse_digits_zeros (k : nat) (s : string) (b : bool) :
  parse_digits (zeros k ++ s) 0 b = parse_digits s 0 (b || (0 <? k)%nat).
Proof.
  revert b. induction k as [|k IH]; intros b; cbn [zeros String.append].
  - now rewrite orb_false_r.
  - cbn [parse_digits]. change (digit_of "0") with (Some 0). cbv iota beta.
    rewrite IH. cbn. now rewrite orb_true_r.
Qed.

Lemma parse_digits_str_of_nat (n : nat) (b : bool) :
  parse_digits (str_of_nat n) 0 b = Some (Z.of_nat n).
Proof.
  unfold str_of_nat, NilZero.string_of_uint.
  rewrite <- (DecimalNat.Unsigned.of_to n) at 2. unfold Nat.of_uint.
  destruct (Nat.to_uint n) eqn:E; [destruct b; reflexivity|..]; rewrite <- E;
    (assert (Hd : Nat.to_uint n <> Decimal.Nil) by (rewrite E; discriminate));
    (destruct b; [|rewrite (parse_digits_start _ 0 Hd)]);
    rewrite parse_digits_uint by lia; reflexivity.
Qed.

(** The zero-padded number in a file name determines the tile's number. *)
Lemma fmt04d_inj (i j : nat) : fmt04d i = fmt04d j -> i = j.
Proof.
  intros H. apply (f_equal (fun s => parse_digits s 0 false)) in H.
  unfold fmt04d in H. rewrite !parse_digits_zeros, !parse_digits_str_of_nat in H.
  injection H as H. lia.
Qed.

Lemma tile_name_inj (stem dir : string) (i j : nat) :
  tile_name stem dir i = tile_name stem dir j -> i = j.
Proof.
  unfold tile_name. intros H.
  do 4 apply append_cancel_l in H. apply append_cancel_r in H.
  now apply fmt04d_inj.
Qed.

Lemma target_components (stem : string) (out_base : path) (dir : string) (i : nat) :
  dir <> "" ->
  target stem out_base dir i = out_base ++ [dir; tile_name stem dir i].
Proof.
  intros Hd. unfold target, path_div.
  apply String.eqb_neq in Hd. rewrite Hd.
  assert (Hn : String.eqb (tile_name stem dir i) "" = false).
  { apply String.eqb_neq. intros E. apply (f_equal String.length) in E.
    unfold tile_name in E. rewrite !length_append in E. cbn in E. lia. }
  rewrite Hn, <- app_assoc. reflexivity.
Qed.

Lemma target_inj (stem : string) (out_base : path) (dir dir' : string) (i j : nat) :
  dir <> "" -> dir' <> "" ->
  target stem out_base dir i = target stem out_base dir' j ->
  dir = dir' /\ i = j.
Proof.
  intros Hd Hd' H. rewrite !target_components in H by assumption.
  apply app_inv_head in H. injection H as -> H. split; [reflexivity|].
  exact (tile_name_inj _ _ _ _ H).
Qed.

Lemma paths_of_writes (stem : string) (out_base : path) (dir : string)
    (tile_of : nat -> ndarray * option string * string) (l : list nat) :
  map event_path (map (imwrite_of stem out_base dir tile_of) l) =
  map (target stem out_base dir) l.
Proof.
  rewrite map_map. apply map_ext. intros i. unfold imwrite_of.
  destruct (tile_of i) as [[t pc] ax]. reflexivity.
Qed.

Lemma NoDup_targets (stem : string) (out_base : path) (dir : string) (l : list nat) :
  dir <> "" -> NoDup l -> NoDup (map (target stem out_base dir) l).
Proof.
  intros Hd Hl. apply NoDup_map_NoDup_ForallPairs; [|exact Hl].
  intros i j _ _ E. exact (proj2 (target_inj _ _ _ _ _ _ Hd Hd E)).
Qed.

(** X17.  No tile overwrites another: the files written by one export
    have pairwise distinct paths, across the three directions and within
    each. *)
Theorem tiles_have_distinct_paths (zoom : zoom_t) (tif : tif_input) (out_dir : path)
    (z_aspect : Q) (z_axis c_axis : axis_arg) (mode : string)
    (skip_empty progress_cb : bool)
    (arr_iso : ndarray) (cpos : option cpos_t) (Zd Yd Xd : nat) (C : option nat) :
  prepare zoom tif z_aspect z_axis c_axis mode = Ok (arr_iso, cpos, (Zd, Yd, Xd, C)) ->
  (skip_empty = true -> Forall (lt 0%nat) (shape arr_iso)) ->
  let final := run (save_isotropic_slices zoom tif out_dir z_aspect z_axis c_axis mode
                      skip_empty progress_cb) in
  NoDup (map event_path (writes (trace (fst final)))).
Proof.
  intros Hprep Hpos final.
  destruct (save_run zoom tif out_dir z_aspect z_axis c_axis mode skip_empty progress_cb
              arr_iso cpos Zd Yd Xd C Hprep Hpos) as (sm & Hrun & _).
  cbv zeta in Hrun. subst final. rewrite Hrun. cbn [fst trace].
  rewrite !writes_app, !writes_loop. cbn [writes filter is_imwrite List.app].
  rewrite !map_app, !paths_of_writes.
  assert (Hxy : "xy" <> "") by discriminate.
  assert (Hzx : "zx" <> "") by discriminate.
  assert (Hzy : "zy" <> "") by discriminate.
  apply NoDup_app; [|apply NoDup_app|].
  - apply NoDup_targets; [exact Hxy | apply NoDup_filter, seq_NoDup].
  - apply NoDup_targets; [exact Hzx | apply NoDup_filter, seq_NoDup].
  - apply NoDup_targets; [exact Hzy | apply NoDup_filter, seq_NoDup].
  - intros p H1 H2.
    apply in_map_iff in H1 as (i & <- & _). apply in_map_iff in H2 as (j & E & _).
    apply target_inj in E as [E _]; [discriminate | assumption..].
  - intros p H1 H2. apply in_map_iff in H1 as (i & <- & _).
    apply in_app_or in H2 as [H2 | H2]; apply in_map_iff in H2 as (j & E & _);
      apply target_inj in E as [E _]; (discriminate || assumption).
Qed.

Lemma tiles_have_distinct_paths_witness :
  NoDup (map event_path (writes (trace (fst (run (save_isotropic_slices no_zoom
    masks_212 ["out"] 2 (AStr "first") (AStr "none") "labels" true true)))))).
Proof.
  exact (tiles_have_distinct_paths no_zoom masks_212 ["out"] 2
           (AStr "first") (AStr "none") "labels" true true
           _ None 4 1 2 None eq_refl (fun _ => ltac:(repeat constructor))).
Defined.

(** ** Preferences *)

Lemma dict_get_set (d : dict) (k k' : string) (v : pyval) :
  dict_get (dict_set d k v) k' = if String.eqb k k' then Some v else dict_get d k'.
Proof.
  induction d as [|[k0 v0] r IH]; cbn.
  - reflexivity.
  - destruct (String.eqb_spec k0 k) as [->|Hne]; cbn.
    + destruct (String.eqb k k'); reflexivity.
    + rewrite IH. destruct (String.eqb_spec k0 k') as [->|Hne'].
      * apply String.eqb_neq in Hne. rewrite String.eqb_sym in Hne. now rewrite Hne.
      * reflexivity.
Qed.

Lemma dict_keys_set (d : dict) (k : string) (v : pyval) :
  dict_get d k <> None -> dict_keys (dict_set d k v) = dict_keys d.
Proof.
  induction d as [|[k0 v0] r IH]; cbn; intros H; [congruence|].
  destruct (String.eqb k0 k); cbn; [reflexivity|]. f_equal. exact (IH H).
Qed.

Lemma dict_get_in_keys (d : dict) (k : string) :
  dict_get d k <> None <-> In k (dict_keys d).
Proof.
  induction d as [|[k0 v0] r IH]; cbn; [tauto|].
  destruct (String.eqb_spec k0 k) as [->|Hne].
  - split; [now left | discriminate].
  - rewrite IH. split; [now right | intros [E|H]; [contradiction | exact H]].
Qed.

(** A union reads the right operand first, then the left one. *)
Lemma dict_get_union (d1 d2 : dict) (k : string) :
  NoDup (dict_keys d2) ->
  dict_get (dict_union d1 d2) k =
    match dict_get d2 k with
    | Some v => Some v
    | None => dict_get d1 k
    end.
Proof.
  unfold dict_union. revert d1.
  induction d2 as [|[k0 v0] r IH]; intros d1 Hnd; cbn; [reflexivity|].
  inversion Hnd as [|? ? Hnotin Hr]; subst.
  rewrite (IH _ Hr), dict_get_set.
  destruct (String.eqb_spec k0 k) as [->|Hne]; [|reflexivity].
  destruct (dict_get r k) eqn:E; [|reflexivity].
  exfalso. apply Hnotin. apply dict_get_in_keys. congruence.
Qed.

Lemma dict_union_keeps_keys (d1 d2 : dict) (k : string) :
  dict_get d1 k <> None -> dict_get (dict_union d1 d2) k <> None.
Proof.
  unfold dict_union. revert d1.
  induction d2 as [|[k0 v0] r IH]; intros d1 H; cbn; [exact H|].
  apply IH. rewrite dict_get_set. destruct (String.eqb k0 k); [discriminate | exact H].
Qed.

(** X18.  [load_prefs] never fails and never returns less than the
    defaults: whatever the file holds, every default key is present and
    ["z_aspect"] is a number; a missing, unreadable or non-object file
    gives the defaults themselves; and from a JSON object each key other
    than ["z_aspect"] is read from the file when it is there and from the
    defaults otherwise. *)
Theorem load_prefs_complete (cwd_out : string) (fs : filesystem)
    (path env : option string) (home : string) :
  let defaults := DEFAULT_PREFS cwd_out in
  let prefs := load_prefs defaults fs path env home in
  (forall k, In k (dict_keys defaults) -> dict_get prefs k <> None) /\
  (exists v, dict_get prefs "z_aspect" = Some v /\ is_number v = true) /\
  ((forall data, fs (_prefs_path path env home) <> JsonObject data) ->
   prefs = defaults) /\
  (forall data k,
     fs (_prefs_path path env home) = JsonObject data ->
     NoDup (dict_keys data) -> k <> "z_aspect" ->
     dict_get prefs k = match dict_get data k with
                        | Some v => Some v
                        | None => dict_get defaults k
                        end).
Proof.
  intros defaults prefs. subst prefs. unfold load_prefs.
  destruct (fs (_prefs_path path env home)) as [| |data|] eqn:Ef.
  1,2,4: (split; [intros k Hk; now apply dict_get_in_keys|];
          split; [exists (VNum 1); split; reflexivity|];
          split; [reflexivity | intros; discriminate]).
  cbv zeta.
  assert (Hz : dict_get (dict_union defaults data) "z_aspect" <> None)
    by (apply dict_union_keeps_keys; discriminate).
  destruct (dict_get (dict_union defaults data) "z_aspect") as [z|] eqn:Ez;
    [|congruence].
  split; [|split; [|split]].
  - intros k Hk.
    assert (Hu : dict_get (dict_union defaults data) k <> None)
      by (apply dict_union_keeps_keys, dict_get_in_keys; exact Hk).
    destruct (is_number z); cbn [negb]; [exact Hu|].
    rewrite dict_get_set. destruct (String.eqb "z_aspect" k); [discriminate | exact Hu].
  - destruct (is_number z) eqn:En; cbn [negb].
    + exists z. split; [exact Ez | exact En].
    + exists (VNum 1). rewrite dict_get_set. split; reflexivity.
  - intros H. exfalso. exact (H data eq_refl).
  - intros data' k [= <-] Hnd Hk.
    assert (Hu := dict_get_union defaults data k Hnd).
    destruct (is_number z); cbn [negb]; [exact Hu|].
    rewrite dict_get_set.
    destruct (String.eqb_spec "z_aspect" k) as [E|_]; [congruence | exact Hu].
Qed.

Lemma load_prefs_complete_witness :
  let fs := write_text (fun _ => Missing) "p.json"
              (JsonObject [("z_aspect", VStr "wide"); ("mode", VStr "image")]) in
  dict_get (load_prefs (DEFAULT_PREFS "out") fs (Some "p.json") None "/home/u") "mode"
    = Some (VStr "image") /\
  dict_get (load_prefs (DEFAULT_PREFS "out") fs (Some "p.json") None "/home/u") "z_aspect"
    = Some (VNum 1).
Proof.
  cbv zeta. split; [|reflexivity].
  refine (proj2 (proj2 (proj2 (load_prefs_complete "out" _ (Some "p.json") None "/home/u")))
            [("z_aspect", VStr "wide"); ("mode", VStr "image")] "mode" eq_refl _ _).
  - repeat constructor; cbn; intuition discriminate.
  - discriminate.
Defined.

Lemma fold_set_head (d2 d : dict) (k : string) (v : pyval) :
  ~ In k (dict_keys d2) ->
  fold_left (fun acc kv => dict_set acc (fst kv) (snd kv)) d2 ((k, v) :: d) =
  (k, v) :: fold_left (fun acc kv => dict_set acc (fst kv) (snd kv)) d2 d.
Proof.
  revert d. induction d2 as [|[k2 v2] r IH]; intros d Hn; cbn; [reflexivity|].
  cbn in Hn. destruct (String.eqb_spec k k2) as [->|Hne]; [tauto|].
  apply IH. tauto.
Qed.

(** Updating a [dict] with one of the same keys, in the same order, gives
    the update. *)
Lemma dict_union_same_keys (d1 d2 : dict) :
  dict_keys d2 = dict_keys d1 -> NoDup (dict_keys d1) -> dict_union d1 d2 = d2.
Proof.
  unfold dict_union. revert d2.
  induction d1 as [|[k v] r IH]; intros [|[k2 v2] r2] Hk Hnd; cbn in Hk;
    try discriminate; [reflexivity|].
  injection Hk as -> Hk. change (dict_keys r2 = dict_keys r) in Hk.
  inversion Hnd as [|? ? Hnotin Hr]; subst.
  cbn. rewrite String.eqb_refl, fold_set_head by (rewrite Hk; exact Hnotin).
  f_equal. exact (IH r2 Hk Hr).
Qed.

Lemma dict_get_map_keys (f : string -> pyval) (keys : list string) (k : string) :
  In k keys -> dict_get (map (fun k => (k, f k)) keys) k = Some (f k).
Proof.
  induction keys as [|k0 r IH]; cbn; intros H; [destruct H|].
  destruct (String.eqb_spec k0 k) as [->|Hne]; [reflexivity|].
  destruct H as [E|H]; [contradiction | exact (IH H)].
Qed.

Lemma stringify_paths_keys (keys : list string) (d : dict) :
  dict_keys (fold_left (fun d key =>
                          match dict_get d key with
                          | Some (VPath p) => dict_set d key (VStr p)
                          | _ => d
                          end) keys d) = dict_keys d.
Proof.
  revert d. induction keys as [|key r IH]; intros d; cbn; [reflexivity|].
  rewrite IH. destruct (dict_get d key) as [[| | | |p|]|] eqn:E; try reflexivity.
  apply dict_keys_set. congruence.
Qed.

Lemma stringify_paths_other (keys : list string) (d : dict) (k : string) :
  ~ In k keys ->
  dict_get (fold_left (fun d key =>
                         match dict_get d key with
                         | Some (VPath p) => dict_set d key (VStr p)
                         | _ => d
                         end) keys d) k = dict_get d k.
Proof.
  revert d. induction keys as [|key r IH]; intros d Hn; cbn; [reflexivity|].
  cbn in Hn. rewrite IH by tauto.
  destruct (dict_get d key) as [[| | | |p|]|]; try reflexivity.
  rewrite dict_get_set. destruct (String.eqb_spec key k) as [->|_]; [tauto | reflexivity].
Qed.

Lemma sanitize_keys (defaults prefs : dict) :
  dict_keys (sanitize defaults prefs) = dict_keys defaults.
Proof.
  unfold sanitize. rewrite stringify_paths_keys.
  unfold dict_keys at 1. rewrite map_map. cbn [fst]. apply map_id.
Qed.

(** X19.  Saving then loading gives the preferences back.  [save_prefs]
    writes one entry per default key and no other, in the defaults' order,
    leaving every other file alone; [load_prefs] of the same path then
    returns exactly what was written, except that a ["z_aspect"] which is
    not a number is replaced by 1.0.  A key that is neither ["z_aspect"]
    nor a path entry thus comes back with the value it had in [prefs], or
    with its default when [prefs] lacked it. *)
Theorem save_load_prefs_round_trip (defaults prefs : dict) (fs fs' : filesystem)
    (path env : option string) (home : string) :
  NoDup (dict_keys defaults) ->
  save_prefs defaults prefs fs path env home = Ok fs' ->
  let written := sanitize defaults prefs in
  let loaded := load_prefs defaults fs' path env home in
  fs' (_prefs_path path env home) = JsonObject written /\
  (forall q, q <> _prefs_path path env home -> fs' q = fs q) /\
  dict_keys written = dict_keys defaults /\
  loaded = (if match dict_get written "z_aspect" with
               | Some v => is_number v
               | None => true
               end
            then written else dict_set written "z_aspect" (VNum 1)) /\
  (forall k, In k (dict_keys defaults) ->
     k <> "z_aspect" -> k <> "out_dir" -> k <> "last_input" ->
     dict_get loaded k = match dict_get prefs k with
                         | Some v => Some v
                         | None => dict_get defaults k
                         end).
Proof.
  intros Hnd Hsave written loaded. unfold save_prefs in Hsave. fold written in Hsave.
  destruct (forallb (fun kv => serialisable (snd kv)) written); [|discriminate].
  injection Hsave as <-.
  assert (Hfile : write_text fs (_prefs_path path env home) (JsonObject written)
                    (_prefs_path path env home) = JsonObject written)
    by (unfold write_text; now rewrite String.eqb_refl).
  assert (Hkeys : dict_keys written = dict_keys defaults) by apply sanitize_keys.
  assert (Hload : loaded = (if match dict_get written "z_aspect" with
                               | Some v => is_number v
                               | None => true
                               end
                            then written else dict_set written "z_aspect" (VNum 1))).
  { subst loaded. unfold load_prefs. rewrite Hfile. cbv zeta.
    rewrite (dict_union_same_keys defaults written Hkeys Hnd).
    destruct (dict_get written "z_aspect") as [v|]; [|reflexivity].
    destruct (is_number v); reflexivity. }
  split; [exact Hfile|]. split; [|split; [exact Hkeys|split; [exact Hload|]]].
  - intros q Hq. unfold write_text. apply String.eqb_neq in Hq. now rewrite Hq.
  - intros k Hk Hz Ho Hl. rewrite Hload.
    assert (Hw : dict_get written k = match dict_get prefs k with
                                      | Some v => Some v
                                      | None => dict_get defaults k
                                      end).
    { unfold written, sanitize. rewrite stringify_paths_other
        by (cbn; intros [E | [E | []]]; congruence).
      rewrite (dict_get_map_keys
                 (fun k => match dict_get prefs k with
                           | Some v => v
                           | None => match dict_get defaults k with
                                     | Some v => v
                                     | None => VNone
                                     end
                           end) _ k Hk).
      destruct (dict_get prefs k); [reflexivity|].
      apply dict_get_in_keys in Hk. destruct (dict_get defaults k); congruence. }
    match goal with |- context [if ?b then _ else _] => destruct b end;
      [exact Hw|].
    rewrite dict_get_set.
    destruct (String.eqb_spec "z_aspect" k) as [E|_]; [congruence | exact Hw].
Qed.

Lemma save_load_prefs_round_trip_witness :
  exists fs',
    save_prefs (DEFAULT_PREFS "out")
      [("z_axis", VStr "last"); ("c_axis", VStr "first"); ("z_aspect", VNum (314 # 100));
       ("theme", VStr "dark")]
      (fun _ => Missing) (Some "prefs.json") None "/home/u" = Ok fs' /\
    dict_get (load_prefs (DEFAULT_PREFS "out") fs' (Some "prefs.json") None "/home/u")
      "z_axis" = Some (VStr "last") /\
    dict_keys (load_prefs (DEFAULT_PREFS "out") fs' (Some "prefs.json") None "/home/u")
      = dict_keys (DEFAULT_PREFS "out").
Proof.
  eexists. split; [reflexivity|].
  assert (Hnd : NoDup (dict_keys (DEFAULT_PREFS "out")))
    by (repeat constructor; cbn; intuition discriminate).
  destruct (save_load_prefs_round_trip (DEFAULT_PREFS "out")
              [("z_axis", VStr "last"); ("c_axis", VStr "first");
               ("z_aspect", VNum (314 # 100)); ("theme", VStr "dark")]
              (fun _ => Missing) _ (Some "prefs.json") None "/home/u" Hnd eq_refl)
    as (_ & _ & _ & _ & Hget).
  split; [|reflexivity].
  apply (Hget "z_axis"); [cbn; tauto | discriminate..].
Defined.

(** ** Command line: inferred axes *)

Lemma str_index_bound (c : ascii) (s : string) (k : nat) :
  str_index c s = Some k -> (k < String.length s)%nat.
Proof.
  revert k. induction s as [|c' r IH]; intros k; cbn; [discriminate|].
  destruct (Ascii.eqb c' c).
  - intros [= <-]. lia.
  - destruct (str_index c r) as [j|]; cbn; [|discriminate].
    intros [= <-]. specialize (IH j eq_refl). lia.
Qed.

(** X20.  Axes inferred on the command line resolve to the letters'
    places.  With [--infer-axes] and no [--z-axis], a successful
    [cli_main] passes as Z axis a token that [parse_axis] resolves to the
    position of ["Z"] in the metadata axes string, a valid index of an
    array with one dimension per letter; an absent or ["none"] channel
    axis likewise becomes the position of ["C"], or no channel when the
    string has no ["C"].  With [--z-axis] given and any [--c-axis] text,
    nothing is inferred: both arguments are passed on as they are. *)
Theorem cli_inferred_axes_resolve (c_axis : option string) (meta : string) (ndim : nat)
    (z : string) (c' : option string) :
  String.length meta = ndim ->
  cli_axes true None c_axis (Some meta) = Some (z, c') ->
  (exists k,
     str_index "Z" meta = Some k /\ (k < ndim)%nat /\
     parse_axis (AStr z) ndim false = Ok (Some (Z.of_nat k))) /\
  (c_axis = None \/ c_axis = Some "none" ->
   parse_axis (axis_arg_of c') ndim true =
     Ok (option_map Z.of_nat (str_index "C" meta))) /\
  (forall infer zs cs metadata,
     cli_axes infer (Some zs) (Some cs) metadata = Some (zs, Some cs)).
Proof.
  intros Hlen H. unfold cli_axes in H. cbn [andb orb] in H.
  destruct (str_index "Z" meta) as [k|] eqn:Ez; cbv beta iota zeta in H;
    [|discriminate H].
  injection H as Hz Hc'.
  pose proof (str_index_bound _ _ _ Ez) as Hk. rewrite Hlen in Hk.
  assert (Hn : (1 <= ndim)%nat) by lia.
  split; [|split].
  - exists k. split; [reflexivity|]. split; [exact Hk|].
    rewrite <- Hz, parse_axis_digits by exact Hn.
    apply Nat.ltb_lt in Hk. now rewrite Hk.
  - intros Hc.
    assert (Hc'' : c' = match str_index "C" meta with
                        | Some j => Some (str_of_nat j)
                        | None => Some "none"
                        end)
      by (destruct Hc as [-> | ->]; symmetry; exact Hc').
    rewrite Hc''.
    destruct (str_index "C" meta) as [j|] eqn:Ec; cbn [axis_arg_of option_map].
    + pose proof (str_index_bound _ _ _ Ec) as Hj. rewrite Hlen in Hj.
      rewrite parse_axis_digits by exact Hn.
      apply Nat.ltb_lt in Hj. now rewrite Hj.
    + reflexivity.
  - intros infer zs cs metadata. unfold cli_axes. cbn [orb].
    rewrite andb_false_r. reflexivity.
Qed.

Lemma cli_inferred_axes_resolve_witness :
  parse_axis (AStr "1") 4 false = Ok (Some 1) /\
  parse_axis (axis_arg_of (Some "0")) 4 true = Ok (Some 0).
Proof.
  destruct (cli_inferred_axes_resolve None "CZYX" 4 "1" (Some "0") eq_refl eq_refl)
    as ((k & Ek & _ & Hz) & Hc & _).
  injection Ek as <-. split; [exact Hz|]. apply Hc. now left.
Defined.

(** ** Whole exports: the dimensions *)







